(** * Stellar structure notebooks (lecture 2): a shallow embedding

    The development follows the two notebooks that solve the equations of
    stellar structure: [StellarStruc-NG.ipynb] (Newtonian gravity, the
    filled-in notebook) and the skeleton notebook [STELLARSTRUC.IPYNB] whose
    cells it fills in.  Python floats are IEEE binary64 numbers, so they are
    embedded as Rocq's primitive floats; Python exceptions are embedded in an
    error monad; numpy arrays are lists read and written by index.

    Four routines are kept as parameters of the development.  Three are
    outside the repository: the C library's [pow] (the value of Python's
    [**] on floats; the overflow that Python turns into an exception is
    embedded with it), [numpy.interp] (the in-range evaluation that
    [scipy.interpolate.interp1d] delegates to), and
    [scipy.integrate.odeint].  The fourth, [crust], is a
    module of the repository whose source is not at hand.  What the notebooks
    themselves decide (bounds policies, what is stored, what is tested, where
    the loop stops, what is sliced) is embedded literally; [numpy.linspace],
    [numpy.gradient] and the constructor and bounds check of [interp1d] are
    embedded as the releases of 2018 compute them. *)

From Stdlib Require Import Floats Uint63 ZArith Bool Lia.
From stdpp Require Import base list.

Set Warnings "-inexact-float".

(** ** Exceptions and the error monad *)

Inductive exn : Set :=
| IndexError
| NameError
| OverflowError
| ValueError.

Inductive result (A : Type) : Type :=
| Ok (a : A)
| Raise (e : exn).
Arguments Ok {A} a.
Arguments Raise {A} e.

#[global] Instance result_ret : MRet result := fun A a => Ok a.
#[global] Instance result_bind : MBind result := fun A B f r =>
  match r with
  | Ok a => f a
  | Raise e => Raise e
  end.

Definition is_Ok {A} (r : result A) : Prop := ∃ a, r = Ok a.

(** [mapM]: apply a fallible function to every element of an array,
    stopping at the first exception. *)
Fixpoint result_mapM {A B} (f : A → result B) (l : list A) : result (list B) :=
  match l with
  | [] => Ok []
  | a :: l' => b ← f a; bs ← result_mapM f l'; Ok (b :: bs)
  end.

#[global] Instance float_inhabited : Inhabited float := populate 0%float.

(** A row [mu, m] of the solution array [ys]. *)
Abbreviation state := (float * float)%type.

(** ** Python indexing *)

(** [l[k]] for a non-negative index. *)
Definition getitem {A} (l : list A) (k : nat) : result A :=
  match l !! k with
  | Some a => Ok a
  | None => Raise IndexError
  end.

(** [l[-k]] for [k ≥ 1]: the k-th element from the end. *)
Definition getitem_neg {A} (l : list A) (k : nat) : result A :=
  if decide (1 ≤ k ≤ length l) then getitem l (length l - k) else Raise IndexError.

(** [l[k] = a]: numpy raises when [k] is out of range. *)
Definition setitem {A} (l : list A) (k : nat) (a : A) : result (list A) :=
  if decide (k < length l) then Ok (<[k:=a]> l) else Raise IndexError.

(** ** Python floats *)

(** [x ** y] on Python floats, for a positive exponent: the value is the C
    library's [pow x y], and Python raises [OverflowError] when the result
    of finite operands is out of range.  The other exceptions of [**] (zero
    to a negative power, a negative number to a fractional power) need
    exponents that the notebooks do not use: theirs are 2, 3 and 0.5. *)
Definition overflows (pow : float → float → float) (x y : float) : bool :=
  is_finite x && is_finite y && is_infinity (pow x y).

Definition float_pow (pow : float → float → float) (x y : float) : result float :=
  if overflows pow x y then Raise OverflowError else Ok (pow x y).

(** ** numpy *)

Module np.

(** [np.pi] *)
Definition pi : float := 0x1.921fb54442d18p+1%float.

Definition of_nat (k : nat) : float := PrimFloat.of_uint63 (Uint63.of_Z (Z.of_nat k)).

(** [np.linspace(start, stop, num)] with the default [endpoint=True]:
    [arange(num) * step + start] with [step = (stop - start) / (num - 1)],
    the last sample then overwritten by [stop].  A negative [num] raises. *)
Definition linspace (start stop : float) (num : Z) : result (list float) :=
  if decide (num < 0)%Z then Raise ValueError else
  let n := Z.to_nat num in
  let div := np.of_nat (n - 1) in
  let delta := (stop - start)%float in
  let y := np.of_nat <$> seq 0 n in
  let y :=
    if decide (1 < n) then
      let step := (delta / div)%float in
      if (step =? 0)%float
      then (λ v, (v / div * delta)%float) <$> y
      else (λ v, (v * step)%float) <$> y
    else (λ v, (v * delta)%float) <$> y in
  let y := (λ v, (v + start)%float) <$> y in
  Ok (if decide (1 < n) then <[n - 1 := stop]> y else y).

(** [np.zeros((n, 2))] *)
Definition zeros (n : nat) : list state := replicate n (0%float, 0%float).

(** [np.gradient(f)] for a one-dimensional array with unit spacing:
    central differences inside, one-sided differences at both ends; fewer
    than two samples raise. *)
Fixpoint gradient_interior (f : list float) : list float :=
  match f with
  | a :: (_ :: c :: _) as f' => ((c - a) / 2)%float :: gradient_interior f'
  | _ => []
  end.

Definition gradient (f : list float) : result (list float) :=
  match f, reverse f with
  | f0 :: f1 :: _, l0 :: l1 :: _ =>
      Ok ((f1 - f0)%float :: gradient_interior f ++ [(l0 - l1)%float])
  | _, _ => Raise ValueError
  end.

(** Elementwise division of two arrays; shapes that do not match raise. *)
Definition divide (a b : list float) : result (list float) :=
  if decide (length a = length b)
  then Ok (zip_with (λ u v, (u / v)%float) a b)
  else Raise ValueError.

End np.

(** ** scipy.interpolate.interp1d *)

Module scipy.

(** A linear interpolant: its knots (sorted by abscissa at construction),
    and the out-of-bounds policy it was built with. *)
Record interp : Set := Interp {
  x : list float;
  y : list float;
  bounds_error : bool;
  fill_value : float
}.

(** The order of [numpy.argsort] on floats: numbers by [<], every NaN after
    every number. *)
Definition sorts_before (a b : float) : bool :=
  (a <? b)%float || (is_nan b && negb (is_nan a)).

(** The knots are sorted by abscissa ([assume_sorted=False]). *)
Fixpoint insert_knot (k : float * float) (l : list (float * float)) : list (float * float) :=
  match l with
  | [] => [k]
  | h :: t => if sorts_before (h.1) (k.1) then h :: insert_knot k t else k :: h :: t
  end.

Definition sort_knots (l : list (float * float)) : list (float * float) :=
  foldr insert_knot [] l.

(** The fewest knots [kind='linear'] accepts. *)
Definition minval : nat := 2.

(** [interp1d(x, y, kind='linear', bounds_error=..., fill_value=...)].
    Abscissae and ordinates of different lengths raise, and so do fewer
    than [minval] knots. *)
Definition interp1d (xs ys : list float) (bounds_error : bool) (fill_value : float)
  : result interp :=
  if decide (length xs = length ys) then
    let knots := sort_knots (zip xs ys) in
    if decide (length xs < minval) then Raise ValueError
    else Ok (Interp (knots.*1) (knots.*2) bounds_error fill_value)
  else Raise ValueError.

(** [interp1d(x, y, kind='linear')]: by default a query outside the knots
    raises. *)
Definition interp1d_default (xs ys : list float) : result interp :=
  interp1d xs ys true nan.

Section call.
(** [numpy.interp(x, xp, fp)]: the piecewise-linear value at a query inside
    the knots. *)
Variable np_interp : float → list float → list float → float.

(** Calling the interpolant on a scalar: the value is computed, then the
    query is compared with the first and the last knot; outside, it either
    raises or is replaced by the fill value. *)
Definition call (f : interp) (x_new : float) : result float :=
  let y_new := np_interp x_new (x f) (y f) in
  x_first ← getitem (x f) 0;
  x_last ← getitem_neg (x f) 1;
  let below_bounds := (x_new <? x_first)%float in
  let above_bounds := (x_last <? x_new)%float in
  if bounds_error f && (below_bounds || above_bounds) then Raise ValueError
  else if below_bounds || above_bounds then Ok (fill_value f)
  else Ok y_new.

(** Calling the interpolant on an array. *)
Definition call_array (f : interp) (x_new : list float) : result (list float) :=
  result_mapM (call f) x_new.
End call.

End scipy.

(** ** The physical constants of the IMPORT STUFF cell *)

Definition G : float := 6.674e-8%float.
Definition c : float := 2.998e10%float.
Definition Msun : float := 1.988e33%float.
Definition rhonuc : float := 2.7e14%float.

(** ** The RUN CODE loop, shared by both notebooks *)

(** The condition of the [if] in the loop:
    [pressure < tol or pressure != pressure]. *)
Definition pressure_vanishes (pressure tol : float) : bool :=
  (pressure <? tol)%float || negb (pressure =? pressure)%float.

(** The variables the loop reads and writes.  [i] is unbound until the
    [for] statement has assigned it once. *)
Module vars.
Record t : Set := Make {
  ys : list state;
  Rsol : float;
  i : option nat
}.
End vars.

(** What the cell has computed when it ends. *)
Module sol.
Record t : Set := Make {
  rlist : list float;
  musoldat : list float;
  msoldat : list float;
  musol : scipy.interp;
  msol : scipy.interp;
  psol : scipy.interp;
  Rsol : float;
  Msol : float
}.
End sol.

Section loop.
(** [odeint(func, y0, t)] for a two-point [t]: the rows of the returned
    array, at [t[0]] and at [t[1]]. *)
Variable odeint : (state → float → state) → state → float * float → state * state.
Variable struceqs : state → float → state.
Variable tol : float.
Variable rlist : list float.

(** The body of the [for] statement at index [i]; the boolean tells whether
    it ended in [break]. *)
Definition loop_body (i : nat) (v : vars.t) : result (vars.t * bool) :=
  r0 ← getitem rlist i;
  r1 ← getitem rlist (i + 1);
  let rs := (r0, r1) in
  ys_i ← getitem (vars.ys v) i;
  let y := odeint struceqs ys_i rs in
  ys ← setitem (vars.ys v) (i + 1) (y.2);
  row ← getitem ys (i + 1);
  let pressure := row.1 in
  if pressure_vanishes pressure tol
  then Ok (vars.Make ys (rs.1) (Some i), true)
  else Ok (vars.Make ys (vars.Rsol v) (Some i), false).

(** [for i in range(...)]: the indices are visited in order until one
    iteration breaks. *)
Fixpoint for_range (indices : list nat) (v : vars.t) : result vars.t :=
  match indices with
  | [] => Ok v
  | i :: rest =>
      '(v', broke) ← loop_body i v;
      if (broke : bool) then Ok v' else for_range rest v'
  end.

(** [for i in range(len(rlist)-1): ...] *)
Definition integrate (v : vars.t) : result vars.t :=
  for_range (seq 0 (length rlist - 1)) v.

(** Reading [i] after the loop: a name that was never assigned raises. *)
Definition read_i (v : vars.t) : result nat :=
  match vars.i v with
  | Some i => Ok i
  | None => Raise NameError
  end.

(** The three slices after the loop:
    [rlist[0:i+1]], [ys[0:i+1,0]], [ys[0:i+1,1]]. *)
Definition truncate (v : vars.t) : result (list float * list float * list float) :=
  i ← read_i v;
  Ok (take (i + 1) rlist, (take (i + 1) (vars.ys v)).*1, (take (i + 1) (vars.ys v)).*2).

End loop.

(** ** The utilities and key functions of both notebooks *)

Section notebooks.
(** Python's [**] on floats. *)
Variable pow : float → float → float.
(** [crust(eos)], of the repository's [crust] module: it affixes the
    low-density crust and returns the columns (rho, mu, p). *)
Variable crust : list (list float) → list float * list float * list float.

(** The interpolated equation of state that [intpeos] returns. *)
Record eos_functions : Set := EosFunctions {
  p : scipy.interp;
  dpdmu : scipy.interp;
  Mu : scipy.interp
}.

(** [geteos]: both notebooks return [rhodat] twice, so that mu = rho. *)
Definition geteos (eos : list (list float)) : list float * list float * list float :=
  let '(rhodat, mudat, pdat) := crust eos in
  (rhodat, rhodat, pdat).

Definition intpeos (rhodat mudat pdat : list float) : result eos_functions :=
  pmuintp ← scipy.interp1d mudat pdat false 0%float;
  gp ← np.gradient pdat;
  gmu ← np.gradient mudat;
  slope ← np.divide gp gmu;
  dpdmumuintp ← scipy.interp1d mudat slope false 0%float;
  murhointp ← scipy.interp1d rhodat mudat false 0%float;
  Ok (EosFunctions pmuintp dpdmumuintp murhointp).

(** The input parameters of the PROVIDE INPUT PARAMETERS cell, with the file
    that [eospath + eosname] names already read by [np.genfromtxt]; [pts] is
    the integer [int(pts)]. *)
Record params : Set := Params {
  eos : list (list float);
  rhoc : float;
  stp : float;
  pts : Z;
  tol : float
}.

(** The OUTPUT RESULTS cell's conversion of R to km and of M to solar
    masses. *)
Definition R_km (Rsol : float) : float :=
  (Rsol * c / (1e5 * pow (G * rhonuc) 0.5))%float.

Definition M_Msun (Msol : float) : float :=
  (Msol * pow c 3 / (G * pow (G * rhonuc) 0.5 * Msun))%float.

End notebooks.

(** ** StellarStruc-NG.ipynb: Newtonian gravity *)

Module NG.
Section NG.
Variable pow : float → float → float.
Variable np_interp : float → list float → list float → float.
Variable odeint : (state → float → state) → state → float * float → state * state.
Variable crust : list (list float) → list float * list float * list float.

(** [-(mu)*(m)/(r**2)]: the condition of hydrostatic equilibrium. *)
Definition hydro (y : state) (r : float) : float :=
  let '(mu, m) := y in
  ((- mu) * m / pow r 2)%float.

(** [4.*np.pi*r**2*mu]: the defining equation for the mass. *)
Definition mass (y : state) (r : float) : float :=
  let '(mu, m) := y in
  (4 * np.pi * pow r 2 * mu)%float.

Definition struceqs (y : state) (r : float) : state :=
  (hydro y r, mass y r).

(** RUN CODE, up to the [for] statement.  In [y0], [stp**3] is a power of
    Python floats, which raises when it overflows; the products and the
    quotient around it do not raise.  Past this line every grid radius lies
    between [stp] and 10, so that the [r**2] of [hydro] and [mass] cannot
    overflow on the grid. *)
Definition setup (prm : params)
  : result (eos_functions * float * list float * vars.t) :=
  let '(rhodat, mudat, pdat) := geteos crust (eos prm) in
  f ← intpeos rhodat mudat pdat;
  muc ← scipy.call np_interp (Mu f) (rhoc prm);
  stp3 ← float_pow pow (stp prm) 3;
  let y0 := (muc, (4 * np.pi * stp3 * muc / 3)%float) in
  rlist ← np.linspace (stp prm) 10 (pts prm);
  let ys := np.zeros (length rlist) in
  ys ← setitem ys 0 y0;
  Rsol ← getitem_neg rlist 1;
  Ok (f, muc, rlist, vars.Make ys Rsol None).

(** RUN CODE, after the [for] statement. *)
Definition finish (f : eos_functions) (rlist : list float) (v : vars.t) : result sol.t :=
  '(rlist, musoldat, msoldat) ← truncate rlist v;
  musol ← scipy.interp1d_default rlist musoldat;
  fill ← getitem_neg msoldat 1;
  msol ← scipy.interp1d rlist msoldat false fill;
  pmu ← scipy.call_array np_interp (p f) musoldat;
  psol ← scipy.interp1d_default rlist pmu;
  Msol ← scipy.call np_interp msol (vars.Rsol v);
  Ok (sol.Make rlist musoldat msoldat musol msol psol (vars.Rsol v) Msol).

Definition run_code (prm : params) : result sol.t :=
  '(f, muc, rlist, v0) ← setup prm;
  v ← integrate odeint struceqs (tol prm) rlist v0;
  finish f rlist v.

(** OUTPUT RESULTS: the radius in km and the mass in solar masses. *)
Definition output_results (s : sol.t) : float * float :=
  (R_km pow (sol.Rsol s), M_Msun pow (sol.Msol s)).

End NG.
End NG.

(** ** StellarStruc-NG.ipynb: the curves of the OUTPUT RESULTS cell

    The abscissae [rlist/Rsol] and the ordinates [musol(rlist)/muc],
    [psol(rlist)/p(muc)] and [msol(rlist)/Msol] that the three [plt.plot]
    calls are given, evaluated in the order of the cell.  Dividing a numpy
    array never raises. *)
Definition plot_curves (np_interp : float → list float → list float → float)
    (f : eos_functions) (muc : float) (s : sol.t)
  : result (list float * list float * list float * list float) :=
  let r_over_R : list float := (λ r, (r / sol.Rsol s)%float) <$> sol.rlist s in
  mus ← scipy.call_array np_interp (sol.musol s) (sol.rlist s);
  let mu_curve : list float := (λ v, (v / muc)%float) <$> mus in
  ps ← scipy.call_array np_interp (sol.psol s) (sol.rlist s);
  pc ← scipy.call np_interp (p f) muc;
  let p_curve : list float := (λ v, (v / pc)%float) <$> ps in
  ms ← scipy.call_array np_interp (sol.msol s) (sol.rlist s);
  let m_curve : list float := (λ v, (v / sol.Msol s)%float) <$> ms in
  Ok (r_over_R, mu_curve, p_curve, m_curve).

(** ** The skeleton notebook (STELLARSTRUC.IPYNB) *)

Module Skeleton.
Section Skeleton.
Variable pow : float → float → float.
Variable np_interp : float → list float → list float → float.
Variable odeint : (state → float → state) → state → float * float → state * state.
Variable crust : list (list float) → list float * list float * list float.

(** [-mu*m/r] *)
Definition hydro (y : state) (r : float) : float :=
  let '(mu, m) := y in
  ((- mu) * m / r)%float.

(** [r*mu] *)
Definition mass (y : state) (r : float) : float :=
  let '(mu, m) := y in
  (r * mu)%float.

Definition struceqs (y : state) (r : float) : state :=
  (hydro y r, mass y r).

Definition setup (prm : params)
  : result (eos_functions * list float * vars.t) :=
  let '(rhodat, mudat, pdat) := geteos crust (eos prm) in
  f ← intpeos rhodat mudat pdat;
  let y0 := (10%float, 1e-3%float) in
  rlist ← np.linspace (stp prm) 10 (pts prm);
  let ys := np.zeros (length rlist) in
  ys ← setitem ys 0 y0;
  Rsol ← getitem_neg rlist 2;
  Ok (f, rlist, vars.Make ys Rsol None).

Definition finish (f : eos_functions) (rlist : list float) (v : vars.t) : result sol.t :=
  '(rlist, musoldat, msoldat) ← truncate rlist v;
  musol ← scipy.interp1d_default rlist musoldat;
  msol ← scipy.interp1d_default rlist msoldat;
  pmu ← scipy.call_array np_interp (p f) musoldat;
  psol ← scipy.interp1d_default rlist pmu;
  Msol ← scipy.call np_interp msol (vars.Rsol v);
  Ok (sol.Make rlist musoldat msoldat musol msol psol (vars.Rsol v) Msol).

Definition run_code (prm : params) : result sol.t :=
  '(f, rlist, v0) ← setup prm;
  v ← integrate odeint struceqs (tol prm) rlist v0;
  finish f rlist v.

Definition output_results (s : sol.t) : float * float :=
  (R_km pow (sol.Rsol s), M_Msun pow (sol.Msol s)).

End Skeleton.
End Skeleton.

(** ** Reference instances of the library routines

    Concrete stand-ins with which the embedding can be run: a [pow] that is
    exact on the exponents the notebooks use, the textbook piecewise-linear
    evaluation for [numpy.interp], one explicit Euler step for [odeint], and
    a [crust] that takes the three columns of the table as they are. *)

Module ref.

Definition pow (a b : float) : float :=
  if (b =? 2)%float then (a * a)%float
  else if (b =? 3)%float then (a * a * a)%float
  else if (b =? 0.5)%float then PrimFloat.sqrt a
  else nan.

(** The segment [[x0, x1]] holding the query is found from the left; the
    value is [slope * (x_new - x0) + y0]. *)
Fixpoint np_interp (x_new : float) (xs ys : list float) : float :=
  match xs, ys with
  | x0 :: (x1 :: _) as xs', y0 :: (y1 :: _) as ys' =>
      if (x_new <=? x1)%float || match xs' with [_] => true | _ => false end
      then ((y1 - y0) / (x1 - x0) * (x_new - x0) + y0)%float
      else np_interp x_new xs' ys'
  | _, y0 :: _ => y0
  | _, _ => nan
  end.
(** One explicit Euler step over the interval.  It stands in for the solver
    where a general fact is run on a worked input; the facts themselves are
    stated for every solver. *)
Definition odeint (func : state → float → state) (y0 : state) (t : float * float)
  : state * state :=
  let h := (t.2 - t.1)%float in
  let d := func y0 (t.1) in
  (y0, ((y0.1 + h * d.1)%float, (y0.2 + h * d.2)%float)).

Fixpoint columns (rows : list (list float)) : list float * list float * list float :=
  match rows with
  | [rho; mu; p] :: rest =>
      let '(rhodat, mudat, pdat) := columns rest in
      (rho :: rhodat, mu :: mudat, p :: pdat)
  | _ => ([], [], [])
  end.

Definition crust : list (list float) → list float * list float * list float := columns.

End ref.

(** * Notions the facts are stated with *)

(** ** The states the loop computes

    These functions unroll the loop: they are what the facts below are
    stated with. *)

Section trajectory.
Variable odeint : (state → float → state) → state → float * float → state * state.
Variable struceqs : state → float → state.
Variable tol : float.
Variable rlist : list float.
(** The array [ys] as the loop finds it; its row 0 holds the boundary
    values at the centre. *)
Variable ys0 : list state.

(** The state the solver returns at grid point [k], were the loop never to
    break: row 0 of [ys0] at the first grid point, and from there one call
    of the solver per grid interval. *)
Fixpoint computed (k : nat) : state :=
  match k with
  | 0 => ys0 !!! 0
  | S k' => (odeint struceqs (computed k') (rlist !!! k', rlist !!! S k')).2
  end.

(** The test of iteration [k] on the state computed for grid point [k+1]. *)
Definition fires (k : nat) : bool :=
  pressure_vanishes (computed (S k)).1 tol.

(** The first iteration among [k, k+1, ..., k+len-1] whose test fires. *)
Fixpoint first_fire (k len : nat) : option nat :=
  match len with
  | 0 => None
  | S len' => if fires k then Some k else first_fire (S k) len'
  end.

(** The array [ys] once rows [0..k] have been stored. *)
Definition stored (k : nat) : list state :=
  (computed <$> seq 0 (S k)) ++ drop (S k) ys0.

End trajectory.

(** ** Ascending grids *)

(** Every radius is below the next one. *)
Fixpoint ascending (l : list float) : bool :=
  match l with
  | a :: (b :: _) as l' => (a <? b)%float && ascending l'
  | _ => true
  end.

(** ** A solver step that follows the slope

    The step from [y] over [t] does not return a larger energy density when
    the right-hand side at the start of the step is not positive in its
    first component, and does not return a smaller mass when it is not
    negative in its second. *)
Definition follows_slope
    (odeint : (state → float → state) → state → float * float → state * state)
    (func : state → float → state) (y : state) (t : float * float) : bool :=
  let d := func y (t.1) in
  let y' := (odeint func y t).2 in
  implb (negb (0 <? d.1)%float) (y'.1 <=? y.1)%float
  && implb (negb (d.2 <? 0)%float) (y.2 <=? y'.2)%float.

(** ** Inverse conversions *)

(** The algebraic inverses of the two conversions.  The notebooks do not
    contain them; they are written from the round-trip property of the
    specification: multiply by the divisor, divide by the factor. *)
Definition Rsol_of_km (pow : float → float → float) (R : float) : float :=
  (R * (1e5 * pow (G * rhonuc) 0.5) / c)%float.

Definition Msol_of_Msun (pow : float → float → float) (M : float) : float :=
  (M * (G * pow (G * rhonuc) 0.5 * Msun) / pow c 3)%float.

(** [a] is [b] or one of its two neighbours among the binary64 numbers. *)
Definition within_one_ulp (a b : float) : Prop :=
  a = b ∨ a = next_up b ∨ a = next_down b.

(** ** Worked inputs

    The three-row table of the specification's concrete scenario, and a
    table of the same shape whose pressures are small against the energy
    density, as they are for matter far below nuclear density. *)

Module inputs.

Definition toy : list (list float) :=
  [[0; 0; 0]; [1; 1; 0.5]; [2; 2; 1]]%float.

Definition soft : list (list float) :=
  [[0; 0; 0]; [1; 1; 1e-7]; [2; 2; 4e-7]]%float.

(** The scenario's parameters on a coarse grid of six points. *)
Definition coarse : params := Params toy 2 1e-4 6 1e-6.

(** The notebook's grid and tolerance on the soft table. *)
Definition soft_star : params := Params soft 2 1e-4 5000 1e-6.

(** A tolerance above the central energy density. *)
Definition high_tol : params := Params toy 2 1e-4 6 3.

(** A tolerance between the central pressure (0.5) and the central energy
    density (1). *)
Definition mid_tol : params := Params toy 1 1e-4 6 0.75.

(** A negative central density. *)
Definition negative_rhoc : params := Params toy (-1) 1e-4 6 1e-6.

(** A table of one row. *)
Definition one_row : params := Params [[1; 1; 0.5]]%float 1 1e-4 6 1e-6.

(** The rows of the toy table in another order. *)
Definition unsorted : params :=
  Params [[1; 1; 0.5]; [0; 0; 0]; [2; 2; 1]]%float 2 1e-4 6 1e-6.

(** A dilute centre on a grid of 21 points. *)
Definition dilute : params := Params toy 1e-3 1e-4 21 1e-6.

(** A grid of five points that starts close to the outer radius. *)
Definition outer_shell : params := Params toy 2 9.9 5 1e-6.

(** Two grid points only, and one grid point only. *)
Definition two_points : params := Params toy 2 1e-4 2 1e-6.

Definition one_point : params := Params toy 2 1e-4 1 1e-6.

(** The grid and the initial variables that [NG.setup] produces. *)
Definition grid (prm : params) : list float :=
  match NG.setup ref.pow ref.np_interp ref.crust prm with
  | Ok (_, _, rlist, _) => rlist
  | Raise _ => []
  end.

Definition vars0 (prm : params) : vars.t :=
  match NG.setup ref.pow ref.np_interp ref.crust prm with
  | Ok (_, _, _, v0) => v0
  | Raise _ => vars.Make [] 0 None
  end.

(** The variables after the loop, and the three slices. *)
Definition after (prm : params) : vars.t :=
  match integrate ref.odeint (NG.struceqs ref.pow) (tol prm) (grid prm) (vars0 prm) with
  | Ok v => v
  | Raise _ => vars.Make [] 0 None
  end.

Definition slices (prm : params) : list float * list float * list float :=
  match truncate (grid prm) (after prm) with
  | Ok t => t
  | Raise _ => ([], [], [])
  end.

(** The solution that [NG.run_code] returns. *)
Definition solution (prm : params) : sol.t :=
  match NG.run_code ref.pow ref.np_interp ref.odeint ref.crust prm with
  | Ok s => s
  | Raise _ =>
      sol.Make [] [] [] (scipy.Interp [] [] true nan) (scipy.Interp [] [] true nan)
        (scipy.Interp [] [] true nan) nan nan
  end.

(** The set-up of the skeleton notebook on a worked input. *)
Definition skeleton_grid (prm : params) : list float :=
  match Skeleton.setup ref.crust prm with
  | Ok (_, rlist, _) => rlist
  | Raise _ => []
  end.

Definition skeleton_vars0 (prm : params) : vars.t :=
  match Skeleton.setup ref.crust prm with
  | Ok (_, _, v0) => v0
  | Raise _ => vars.Make [] 0 None
  end.

End inputs.

(** * Facts *)

(** ** The order of binary64 numbers

    The comparisons of primitive floats are specified by those of
    [SpecFloat]; the order facts used below are proved there by cases. *)

Module float_order.

Ltac sf_cases :=
  unfold SFltb, SFleb, SFeqb, SFcompare;
  repeat match goal with
  | x : spec_float |- _ => destruct x
  | s : bool |- _ => destruct s
  end;
  cbn;
  repeat match goal with
  | |- context [Pos.compare_cont Eq ?a ?b] =>
      change (Pos.compare_cont Eq a b) with (Pos.compare a b);
      destruct (Pos.compare_spec a b)
  | |- context [Z.compare ?a ?b] => destruct (Z.compare_spec a b)
  end;
  cbn; intros; subst; try congruence; try lia.

Lemma SFltb_irrefl x : SFltb x x = false.
Proof. sf_cases. Qed.

Lemma SFltb_asym x y : SFltb x y = true → SFltb y x = false.
Proof. sf_cases. Qed.

Lemma SFltb_trans x y z : SFltb x y = true → SFltb y z = true → SFltb x z = true.
Proof. sf_cases. Qed.

Lemma SFleb_trans x y z : SFleb x y = true → SFleb y z = true → SFleb x z = true.
Proof. sf_cases. Qed.

Lemma SFleb_of_not_ltb x y :
  SFltb x y = false → SFeqb x x = true → SFeqb y y = true → SFleb y x = true.
Proof. sf_cases. Qed.

Lemma SFleb_number x y : SFleb x y = true → SFeqb x x = true ∧ SFeqb y y = true.
Proof. sf_cases; split; reflexivity. Qed.

Lemma SFltb_of_eqb x y : SFeqb x y = true → SFltb x y = false ∧ SFeqb x x = true.
Proof. sf_cases; split; reflexivity. Qed.

Lemma SFltb_number x y : SFltb x y = true → SFeqb x x = true ∧ SFeqb y y = true.
Proof. sf_cases; split; reflexivity. Qed.

Lemma ltb_irrefl (a : float) : (a <? a)%float = false.
Proof. rewrite FloatAxioms.ltb_spec. apply SFltb_irrefl. Qed.

Lemma ltb_asym (a b : float) : (a <? b)%float = true → (b <? a)%float = false.
Proof. rewrite !FloatAxioms.ltb_spec. apply SFltb_asym. Qed.

Lemma ltb_trans (a b c : float) :
  (a <? b)%float = true → (b <? c)%float = true → (a <? c)%float = true.
Proof. rewrite !FloatAxioms.ltb_spec. apply SFltb_trans. Qed.

Lemma leb_trans (a b c : float) :
  (a <=? b)%float = true → (b <=? c)%float = true → (a <=? c)%float = true.
Proof. rewrite !FloatAxioms.leb_spec. apply SFleb_trans. Qed.

Lemma leb_of_not_ltb (a b : float) :
  (a <? b)%float = false → (a =? a)%float = true → (b =? b)%float = true →
  (b <=? a)%float = true.
Proof. rewrite FloatAxioms.ltb_spec, FloatAxioms.leb_spec, !FloatAxioms.eqb_spec. apply SFleb_of_not_ltb. Qed.

Lemma leb_number (a b : float) :
  (a <=? b)%float = true → (a =? a)%float = true ∧ (b =? b)%float = true.
Proof. rewrite FloatAxioms.leb_spec, !FloatAxioms.eqb_spec. apply SFleb_number. Qed.

Lemma ltb_of_eqb (a b : float) :
  (a =? b)%float = true → (a <? b)%float = false ∧ (a =? a)%float = true.
Proof. rewrite FloatAxioms.ltb_spec, !FloatAxioms.eqb_spec. apply SFltb_of_eqb. Qed.

Lemma SFleb_not_ltb x y : SFleb x y = true → SFltb y x = false.
Proof. sf_cases. Qed.

Lemma leb_not_ltb (a b : float) : (a <=? b)%float = true → (b <? a)%float = false.
Proof. rewrite FloatAxioms.leb_spec, FloatAxioms.ltb_spec. apply SFleb_not_ltb. Qed.

Lemma ltb_number (a b : float) :
  (a <? b)%float = true → (a =? a)%float = true ∧ (b =? b)%float = true.
Proof. rewrite FloatAxioms.ltb_spec, !FloatAxioms.eqb_spec. apply SFltb_number. Qed.

End float_order.

(** ** Indexing *)

Lemma bind_Ok {A B} (a : A) (f : A → result B) : Ok a ≫= f = f a.
Proof. done. Qed.

Lemma bind_Ok_inv {A B} (r : result A) (f : A → result B) b :
  r ≫= f = Ok b → ∃ a, r = Ok a ∧ f a = Ok b.
Proof. destruct r as [a|e]; [eauto|done]. Qed.

(** Invert a chain of binds that ended in [Ok]. *)
Ltac inv_bind H :=
  repeat match type of H with
  | _ ≫= _ = Ok _ =>
      let a := fresh "a" in
      let Ha := fresh "H" a in
      apply bind_Ok_inv in H as (a & Ha & H)
  end.

(** ** Powers of Python floats *)

Lemma float_pow_inv pow x y v :
  float_pow pow x y = Ok v → v = pow x y ∧ overflows pow x y = false.
Proof. unfold float_pow. destruct (overflows _ _ _); [done|]. by intros [= <-]. Qed.

Lemma float_pow_Ok pow x y :
  overflows pow x y = false → float_pow pow x y = Ok (pow x y).
Proof. unfold float_pow. by intros ->. Qed.

Lemma float_pow_overflow pow x y :
  overflows pow x y = true → float_pow pow x y = Raise OverflowError.
Proof. unfold float_pow. by intros ->. Qed.

Lemma getitem_Some {A} (l : list A) k a : l !! k = Some a → getitem l k = Ok a.
Proof. unfold getitem. by intros ->. Qed.

Lemma getitem_total `{Inhabited A} (l : list A) k : k < length l → getitem l k = Ok (l !!! k).
Proof. intros Hk. apply getitem_Some. by apply list_lookup_lookup_total_lt. Qed.

Lemma getitem_neg_total `{Inhabited A} (l : list A) k :
  1 ≤ k ≤ length l → getitem_neg l k = Ok (l !!! (length l - k)).
Proof.
  intros Hk. unfold getitem_neg. rewrite decide_True by done.
  apply getitem_total. lia.
Qed.

Lemma setitem_lt {A} (l : list A) k a : k < length l → setitem l k a = Ok (<[k:=a]> l).
Proof. intros Hk. unfold setitem. by rewrite decide_True. Qed.

(** ** The loop *)

Section loop_facts.
Variable odeint : (state → float → state) → state → float * float → state * state.
Variable struceqs : state → float → state.
Variable tol : float.
Variable rlist : list float.
Variable ys0 : list state.

Local Abbreviation computed := (computed odeint struceqs rlist ys0).
Local Abbreviation fires := (fires odeint struceqs tol rlist ys0).
Local Abbreviation first_fire := (first_fire odeint struceqs tol rlist ys0).
Local Abbreviation stored := (stored odeint struceqs rlist ys0).

Lemma length_stored k : k < length ys0 → length (stored k) = length ys0.
Proof.
  intros Hk. unfold stored.
  rewrite length_app, length_fmap, length_seq, length_drop. lia.
Qed.

Lemma stored_0 : 0 < length ys0 → stored 0 = ys0.
Proof.
  intros Hn. unfold stored. simpl.
  destruct (lookup_lt_is_Some_2 ys0 0 Hn) as [z Hz].
  rewrite (list_lookup_total_correct _ _ _ Hz).
  by rewrite <- (drop_S _ _ _ Hz), drop_0.
Qed.

Lemma stored_lookup k j : j ≤ k → stored k !! j = Some (computed j).
Proof.
  intros Hj. unfold stored.
  rewrite lookup_app_l by (rewrite length_fmap, length_seq; lia).
  rewrite list_lookup_fmap, lookup_seq_lt by lia. done.
Qed.

Lemma stored_insert k :
  S k < length ys0 → <[S k := computed (S k)]> (stored k) = stored (S k).
Proof.
  intros Hk. unfold stored.
  rewrite insert_app_r_alt by (rewrite length_fmap, length_seq; lia).
  rewrite length_fmap, length_seq, Nat.sub_diag.
  destruct (lookup_lt_is_Some_2 ys0 (S k) Hk) as [z Hz].
  rewrite (drop_S _ _ _ Hz). simpl insert.
  rewrite (seq_S (S k)), fmap_app, <- app_assoc. done.
Qed.

Lemma take_stored_S k : take (S k) (stored (S k)) = computed <$> seq 0 (S k).
Proof.
  unfold stored. rewrite (seq_S (S k)), fmap_app, <- app_assoc.
  rewrite take_app_length'; [done|].
  by rewrite length_fmap, length_seq.
Qed.

Lemma first_fire_Some len : ∀ k f,
  (∀ j, k ≤ j < f → fires j = false) → fires f = true → k ≤ f < k + len →
  first_fire k len = Some f.
Proof.
  induction len as [|len IH]; intros k f Hbefore Hf Hk; [lia|].
  simpl. destruct (decide (k = f)) as [->|Hne].
  - by rewrite Hf.
  - rewrite (Hbefore k) by lia. apply IH; [|done|lia].
    intros j Hj. apply Hbefore. lia.
Qed.

Lemma first_fire_None len : ∀ k,
  (∀ j, k ≤ j < k + len → fires j = false) → first_fire k len = None.
Proof.
  induction len as [|len IH]; intros k Hnone; [done|].
  simpl. rewrite (Hnone k) by lia. apply IH.
  intros j Hj. apply Hnone. lia.
Qed.

Lemma first_fire_inv len : ∀ k f,
  first_fire k len = Some f →
  k ≤ f < k + len ∧ fires f = true ∧ ∀ j, k ≤ j < f → fires j = false.
Proof.
  induction len as [|len IH]; intros k f; [done|].
  simpl. destruct (fires k) eqn:Hk.
  - intros [= <-]. split; [lia|]. split; [done|]. intros j Hj. lia.
  - intros Hf. destruct (IH _ _ Hf) as (Hr & Hf' & Hb).
    split; [lia|]. split; [done|].
    intros j Hj. destruct (decide (j = k)) as [->|]; [done|]. apply Hb. lia.
Qed.

Hypothesis same_length : length ys0 = length rlist.

(** One iteration stores the solver's state in row [k+1], tests the first
    component of that row, and on a positive test moves [Rsol] to [rlist[k]]. *)
Lemma loop_body_stored k v :
  S k < length rlist →
  vars.ys v = stored k →
  loop_body odeint struceqs tol rlist k v =
  Ok (vars.Make (stored (S k))
        (if fires k then rlist !!! k else vars.Rsol v) (Some k), fires k).
Proof.
  intros Hk Hys. unfold loop_body.
  rewrite (getitem_total rlist k), bind_Ok by lia.
  rewrite Nat.add_1_r.
  rewrite (getitem_total rlist (S k)), bind_Ok by lia.
  rewrite Hys, (getitem_Some _ _ _ (stored_lookup k k (le_n _))), bind_Ok.
  rewrite setitem_lt, bind_Ok by (rewrite length_stored; lia).
  change (odeint struceqs (computed k) (rlist !!! k, rlist !!! S k)).2
    with (computed (S k)).
  rewrite stored_insert by lia.
  rewrite (getitem_Some _ _ _ (stored_lookup (S k) (S k) (le_n _))), bind_Ok.
  unfold fires. by destruct (pressure_vanishes _ _).
Qed.

Lemma for_range_stored len : ∀ k v,
  k + len < length rlist →
  vars.ys v = stored k →
  for_range odeint struceqs tol rlist (seq k len) v =
  Ok match first_fire k len with
     | Some f => vars.Make (stored (S f)) (rlist !!! f) (Some f)
     | None =>
         vars.Make (stored (k + len)) (vars.Rsol v)
           (match len with 0 => vars.i v | S _ => Some (k + len - 1) end)
     end.
Proof.
  induction len as [|len IH]; intros k v Hk Hys.
  - simpl. rewrite Nat.add_0_r, <- Hys. by destruct v.
  - cbn [seq for_range first_fire].
    rewrite (loop_body_stored k v), bind_Ok by (done || lia).
    destruct (fires k) eqn:Hf; [done|].
    rewrite IH by (done || lia).
    destruct (first_fire (S k) len); [done|].
    replace (S k + len) with (k + S len) by lia.
    cbn [vars.Rsol vars.i].
    destruct len; [|done].
    by replace (k + 1 - 1) with k by lia.
Qed.

(** The whole [for] statement. *)
Lemma integrate_stored v :
  0 < length rlist →
  vars.ys v = ys0 →
  integrate odeint struceqs tol rlist v =
  Ok match first_fire 0 (length rlist - 1) with
     | Some f => vars.Make (stored (S f)) (rlist !!! f) (Some f)
     | None =>
         vars.Make (stored (length rlist - 1)) (vars.Rsol v)
           (match length rlist - 1 with 0 => vars.i v | S _ => Some (length rlist - 2) end)
     end.
Proof.
  intros Hn Hys. unfold integrate.
  rewrite for_range_stored by (lia || (rewrite stored_0; done || lia)).
  destruct (first_fire _ _); [done|].
  cbn [plus].
  destruct (length rlist - 1) eqn:E; [done|].
  by replace (S n - 1) with (length rlist - 2) by lia.
Qed.

End loop_facts.

(** The first iteration hands the solver row 0 of [ys] and the first grid
    interval, and stores what it returns in row 1. *)
Lemma loop_body_first odeint struceqs tol rlist v :
  length (vars.ys v) = length rlist → 1 < length rlist →
  let y1 := (odeint struceqs (vars.ys v !!! 0) (rlist !!! 0, rlist !!! 1)).2 in
  ∃ v1,
    loop_body odeint struceqs tol rlist 0 v = Ok (v1, pressure_vanishes (y1.1) tol) ∧
    vars.ys v1 !! 1 = Some y1.
Proof.
  intros Hlen Hn y1.
  rewrite (loop_body_stored odeint struceqs tol rlist (vars.ys v) Hlen 0 v);
    [|lia|symmetry; apply stored_0; lia].
  eexists. split; [done|]. cbn [vars.ys]. by rewrite stored_lookup.
Qed.

(** ** The surface test and the break *)

(** The test of an iteration is made on the first component of the row the
    iteration has just stored, which is the energy density the solver
    returned; no pressure function takes part in [loop_body]. *)
Lemma loop_body_tests_mu odeint struceqs tol rlist k v v' broke :
  loop_body odeint struceqs tol rlist k v = Ok (v', broke) →
  ∃ row, vars.ys v' !! (k + 1) = Some row ∧
         broke = pressure_vanishes row.1 tol.
Proof.
  unfold loop_body.
  destruct (getitem rlist k) as [r0|]; [|done]. rewrite bind_Ok.
  destruct (getitem rlist (k + 1)) as [r1|]; [|done]. rewrite bind_Ok.
  destruct (getitem (vars.ys v) k) as [yk|]; [|done]. rewrite bind_Ok.
  destruct (setitem _ _ _) as [ys|]; [|done]. rewrite bind_Ok.
  unfold getitem. destruct (ys !! (k + 1)) as [row|] eqn:Hrow; [|done].
  rewrite bind_Ok.
  destruct (pressure_vanishes row.1 tol) eqn:Hp; intros [= <- <-]; eauto.
Qed.

(** C1, evaluated on the soft table with the notebook's grid and tolerance:
    the first iteration stores the row [(mu1, m1)] and tests the energy
    density [mu1], close to 2 and so not below the tolerance 1e-6, and the
    loop goes on; the interpolated pressure at [mu1] is about 4e-7, below
    the tolerance, so a test on [pressure(mu1)] would have stopped there. *)
Theorem first_step_tests_mu_not_pressure :
  ∃ f muc rlist v0 v1 mu1 m1 p1,
    NG.setup ref.pow ref.np_interp ref.crust inputs.soft_star
      = Ok (f, muc, rlist, v0) ∧
    loop_body ref.odeint (NG.struceqs ref.pow) (tol inputs.soft_star) rlist 0 v0
      = Ok (v1, false) ∧
    vars.ys v1 !! 1 = Some (mu1, m1) ∧
    (1.99 <? mu1)%float = true ∧
    pressure_vanishes mu1 (tol inputs.soft_star) = false ∧
    scipy.call ref.np_interp (p f) mu1 = Ok p1 ∧
    (p1 <? 5e-7)%float = true ∧
    pressure_vanishes p1 (tol inputs.soft_star) = true.
Proof.
  do 8 eexists. vm_compute. repeat split; reflexivity.
Qed.

(** The same on the worked input [mid_tol], whose tolerance 0.75 lies above
    the central pressure 0.5 and below the central energy density 1: with
    any solver, the first iteration does not break as long as the energy
    density it is given back is not below 0.75, although the pressure at
    the centre is below the tolerance from the start. *)
Example tolerance_above_central_pressure :
  ∃ f muc rlist v0 pc,
    NG.setup ref.pow ref.np_interp ref.crust inputs.mid_tol = Ok (f, muc, rlist, v0) ∧
    scipy.call ref.np_interp (p f) muc = Ok pc ∧
    (pc <? tol inputs.mid_tol)%float = true ∧
    ∀ odeint,
      let y1 :=
        (odeint (NG.struceqs ref.pow) (vars.ys v0 !!! 0) (rlist !!! 0, rlist !!! 1)).2 in
      (tol inputs.mid_tol <=? y1.1)%float = true →
      ∃ v1,
        loop_body odeint (NG.struceqs ref.pow) (tol inputs.mid_tol) rlist 0 v0
          = Ok (v1, false).
Proof.
  do 5 eexists. split; [vm_compute; reflexivity|].
  split; [vm_compute; reflexivity|]. split; [vm_compute; reflexivity|].
  intros odeint y1 Hmu.
  match goal with
  | |- ∃ v1, loop_body _ _ _ ?r 0 ?v = _ =>
      destruct (loop_body_first odeint (NG.struceqs ref.pow) (tol inputs.mid_tol) r v)
        as (v1 & Hbody & _); [vm_compute; reflexivity | vm_compute; lia |]
  end.
  exists v1. rewrite Hbody. do 2 f_equal. unfold pressure_vanishes.
  fold y1.
  destruct (float_order.leb_number _ _ Hmu) as [_ ->].
  by rewrite (float_order.leb_not_ltb _ _ Hmu).
Qed.

Section break.
Variable odeint : (state → float → state) → state → float * float → state * state.
Variable struceqs : state → float → state.
Variable tol : float.
Variable rlist : list float.

Local Abbreviation integrate := (integrate odeint struceqs tol rlist).
Local Abbreviation loop_body := (loop_body odeint struceqs tol rlist).
Local Abbreviation computed := (computed odeint struceqs rlist).
Local Abbreviation fires := (fires odeint struceqs tol rlist).

(** The variables after a break at iteration [f]. *)
Lemma integrate_break (v : vars.t) (f : nat) :
  length (vars.ys v) = length rlist →
  f + 1 < length rlist →
  (∀ j, j < f → fires (vars.ys v) j = false) →
  fires (vars.ys v) f = true →
  integrate v =
  Ok (vars.Make (stored odeint struceqs rlist (vars.ys v) (S f)) (rlist !!! f) (Some f)).
Proof.
  intros Hlen Hf Hbefore Hfire.
  rewrite (integrate_stored _ _ _ _ (vars.ys v) Hlen) by (lia || done).
  rewrite (first_fire_Some _ _ _ _ _ (length rlist - 1) 0 f); [done| |done|lia].
  intros j Hj. apply Hbefore. lia.
Qed.

(** The variables after a loop that never broke. *)
Lemma integrate_exhausted (v : vars.t) :
  length (vars.ys v) = length rlist →
  1 < length rlist →
  (∀ j, j + 1 < length rlist → fires (vars.ys v) j = false) →
  integrate v =
  Ok (vars.Make (stored odeint struceqs rlist (vars.ys v) (length rlist - 1))
        (vars.Rsol v) (Some (length rlist - 2))).
Proof.
  intros Hlen Hn Hnone.
  rewrite (integrate_stored _ _ _ _ (vars.ys v) Hlen) by (lia || done).
  rewrite first_fire_None by (intros j Hj; apply Hnone; lia).
  destruct (length rlist - 1) eqn:E; [lia|done].
Qed.

(** C3: when the test first fires at iteration [i], the loop ends with
    [Rsol] equal to the previous grid radius [rlist[i]]; the failing state
    sits in row [i+1] of [ys], and the three slices keep exactly rows
    [0..i]: the first [i+1] radii, and the energy densities and masses of
    the states computed at grid points [0..i]. *)
Theorem break_reports_previous_radius (v : vars.t) (i : nat) :
  length (vars.ys v) = length rlist →
  i + 1 < length rlist →
  (∀ j, j < i → fires (vars.ys v) j = false) →
  fires (vars.ys v) i = true →
  ∃ v',
    integrate v = Ok v' ∧
    rlist !! i = Some (vars.Rsol v') ∧
    vars.ys v' !! (i + 1) = Some (computed (vars.ys v) (i + 1)) ∧
    take (i + 1) (vars.ys v') = computed (vars.ys v) <$> seq 0 (i + 1) ∧
    truncate rlist v' =
      Ok (take (i + 1) rlist,
          (take (i + 1) (vars.ys v')).*1,
          (take (i + 1) (vars.ys v')).*2) ∧
    length (take (i + 1) rlist) = i + 1 ∧
    length (take (i + 1) (vars.ys v')) = i + 1.
Proof.
  intros Hlen Hi Hbefore Hfire.
  eexists. split; [by apply integrate_break|].
  cbn [vars.Rsol vars.ys]. rewrite !Nat.add_1_r.
  split; [apply list_lookup_lookup_total_lt; lia|].
  split; [by apply stored_lookup|].
  split; [apply take_stored_S|].
  split.
  { unfold truncate, read_i. cbn [vars.i vars.ys].
    by rewrite bind_Ok, !Nat.add_1_r. }
  rewrite !length_take, length_stored by lia. lia.
Qed.

(** C2, as the code has it: the test is strict, so a value equal to the
    tolerance does not fire, and a value fires exactly when it is below the
    tolerance or is not a number; when the value that the first iteration
    extracts fires, the loop breaks at [i = 0] with [Rsol] the first grid
    radius and one row kept; when it does not fire, the first iteration
    does not break. *)
Theorem surface_test_is_strict (v : vars.t) :
  length (vars.ys v) = length rlist →
  1 < length rlist →
  (∀ pressure, (pressure =? tol)%float = true → pressure_vanishes pressure tol = false) ∧
  (∀ pressure, pressure_vanishes pressure tol = true ↔
     (pressure <? tol)%float = true ∨ (pressure =? pressure)%float = false) ∧
  (fires (vars.ys v) 0 = true →
     ∃ v', integrate v = Ok v' ∧ vars.i v' = Some 0 ∧
           rlist !! 0 = Some (vars.Rsol v') ∧
           truncate rlist v' =
             Ok (take 1 rlist, [(vars.ys v !!! 0).1], [(vars.ys v !!! 0).2])) ∧
  (fires (vars.ys v) 0 = false → ∃ v1, loop_body 0 v = Ok (v1, false)).
Proof.
  intros Hlen Hn. repeat split.
  - intros pressure Heq. unfold pressure_vanishes.
    destruct (float_order.ltb_of_eqb _ _ Heq) as [-> ->]. done.
  - unfold pressure_vanishes. intros [H|H]%orb_true_iff; [by left|right].
    by apply negb_true_iff.
  - unfold pressure_vanishes. intros [-> | ->]; [done|]. apply orb_true_r.
  - intros Hfire. eexists. split.
    { apply (integrate_break v 0); [done|lia| |done]. intros j Hj. lia. }
    cbn [vars.i vars.Rsol]. split; [done|].
    split; [apply list_lookup_lookup_total_lt; lia|].
    unfold truncate, read_i. cbn [vars.i vars.ys]. rewrite bind_Ok.
    change (0 + 1) with 1. by rewrite take_stored_S.
  - intros Hfire. eexists.
    rewrite (loop_body_stored _ _ _ _ (vars.ys v) Hlen 0 v); [|lia|].
    + by rewrite Hfire.
    + symmetry. apply stored_0. lia.
Qed.

End break.

(** A run of the worked input [coarse]: the test first fires at iteration 2. *)
Lemma break_reports_previous_radius_coarse :
  ∃ v',
    integrate ref.odeint (NG.struceqs ref.pow) 1e-6 (inputs.grid inputs.coarse)
      (inputs.vars0 inputs.coarse) = Ok v' ∧
    inputs.grid inputs.coarse !! 2 = Some (vars.Rsol v') ∧
    vars.ys v' !! (2 + 1) =
      Some (computed ref.odeint (NG.struceqs ref.pow) (inputs.grid inputs.coarse)
              (vars.ys (inputs.vars0 inputs.coarse)) (2 + 1)) ∧
    take (2 + 1) (vars.ys v') =
      computed ref.odeint (NG.struceqs ref.pow) (inputs.grid inputs.coarse)
        (vars.ys (inputs.vars0 inputs.coarse)) <$> seq 0 (2 + 1) ∧
    truncate (inputs.grid inputs.coarse) v' =
      Ok (take (2 + 1) (inputs.grid inputs.coarse),
          (take (2 + 1) (vars.ys v')).*1,
          (take (2 + 1) (vars.ys v')).*2) ∧
    length (take (2 + 1) (inputs.grid inputs.coarse)) = 2 + 1 ∧
    length (take (2 + 1) (vars.ys v')) = 2 + 1.
Proof.
  apply (break_reports_previous_radius ref.odeint (NG.struceqs ref.pow) 1e-6
           (inputs.grid inputs.coarse) (inputs.vars0 inputs.coarse) 2).
  - vm_compute. reflexivity.
  - vm_compute. lia.
  - intros [|[|j]] Hj; [vm_compute; reflexivity ..|lia].
  - vm_compute. reflexivity.
Defined.

(** Runs of two worked inputs: on [high_tol], whose tolerance 3 lies above
    the central energy density, the first step fires and [Rsol] is the
    starting step; on [coarse] the first step does not fire. *)
Lemma surface_test_is_strict_runs :
  (∀ pressure, (pressure =? 3)%float = true → pressure_vanishes pressure 3 = false) ∧
  inputs.grid inputs.high_tol !! 0 = Some (stp inputs.high_tol) ∧
  (∃ v', integrate ref.odeint (NG.struceqs ref.pow) 3 (inputs.grid inputs.high_tol)
           (inputs.vars0 inputs.high_tol) = Ok v' ∧ vars.i v' = Some 0 ∧
         inputs.grid inputs.high_tol !! 0 = Some (vars.Rsol v') ∧
         truncate (inputs.grid inputs.high_tol) v' =
           Ok (take 1 (inputs.grid inputs.high_tol),
               [(vars.ys (inputs.vars0 inputs.high_tol) !!! 0).1],
               [(vars.ys (inputs.vars0 inputs.high_tol) !!! 0).2])) ∧
  (∃ v1, loop_body ref.odeint (NG.struceqs ref.pow) 1e-6 (inputs.grid inputs.coarse)
           0 (inputs.vars0 inputs.coarse) = Ok (v1, false)).
Proof.
  destruct (surface_test_is_strict ref.odeint (NG.struceqs ref.pow) 3
              (inputs.grid inputs.high_tol) (inputs.vars0 inputs.high_tol))
    as (Hstrict & _ & Hfire & _); [vm_compute; reflexivity | vm_compute; lia |].
  destruct (surface_test_is_strict ref.odeint (NG.struceqs ref.pow) 1e-6
              (inputs.grid inputs.coarse) (inputs.vars0 inputs.coarse))
    as (_ & _ & _ & Hpass); [vm_compute; reflexivity | vm_compute; lia |].
  split; [exact Hstrict|]. split; [vm_compute; reflexivity|].
  split; [apply Hfire | apply Hpass]; vm_compute; reflexivity.
Defined.

(** C2 as stated fails: the comparison of the test is strict, so a pressure
    equal to the tolerance, here the notebook's 1e-6, is not treated as
    vanished. *)
Lemma equal_pressure_does_not_fire :
  (1e-6 <=? 1e-6)%float = true ∧
  pressure_vanishes 1e-6 1e-6 = false.
Proof. split; vm_compute; reflexivity. Qed.

(** ** The boundary values *)

(** C6: when the set-up of the Newtonian notebook succeeds, the central
    energy density is the value at [rhoc] of the interpolant of [mudat]
    against [rhodat] that [intpeos] built, and row 0 of [ys], the state at
    the first grid radius, is [(muc, 4*pi*stp**3*muc/3)]. *)
Theorem setup_boundary_values pow np_interp crust prm f muc rlist v0 :
  NG.setup pow np_interp crust prm = Ok (f, muc, rlist, v0) →
  ∃ rhodat mudat pdat,
    geteos crust (eos prm) = (rhodat, mudat, pdat) ∧
    intpeos rhodat mudat pdat = Ok f ∧
    scipy.interp1d rhodat mudat false 0 = Ok (Mu f) ∧
    scipy.call np_interp (Mu f) (rhoc prm) = Ok muc ∧
    np.linspace (stp prm) 10 (pts prm) = Ok rlist ∧
    vars.ys v0 !! 0 = Some (muc, (4 * np.pi * pow (stp prm) 3 * muc / 3)%float) ∧
    length (vars.ys v0) = length rlist.
Proof.
  unfold NG.setup. destruct (geteos crust (eos prm)) as [[rhodat mudat] pdat].
  intros H. inv_bind H. injection H as <- <- <- <-.
  apply float_pow_inv in Ha1 as [-> _].
  exists rhodat, mudat, pdat. split; [done|]. split; [done|].
  split.
  { unfold intpeos in Ha. inv_bind Ha. by injection Ha as <-. }
  split; [done|]. split; [done|].
  unfold setitem in Ha3. case_decide as Hn; [|done]. injection Ha3 as <-.
  cbn [vars.ys]. rewrite length_insert. unfold np.zeros in *.
  rewrite length_replicate in *. split; [|done].
  by apply list_lookup_insert_eq; rewrite length_replicate.
Qed.

Lemma setup_boundary_values_coarse :
  ∃ rhodat mudat pdat,
    geteos ref.crust (eos inputs.coarse) = (rhodat, mudat, pdat) ∧
    intpeos rhodat mudat pdat
      = Ok (EosFunctions
              (scipy.Interp [0; 1; 2]%float [0; 0.5; 1]%float false 0)
              (scipy.Interp [0; 1; 2]%float [0.5; 0.5; 0.5]%float false 0)
              (scipy.Interp [0; 1; 2]%float [0; 1; 2]%float false 0)) ∧
    scipy.interp1d rhodat mudat false 0
      = Ok (scipy.Interp [0; 1; 2]%float [0; 1; 2]%float false 0) ∧
    scipy.call ref.np_interp (scipy.Interp [0; 1; 2]%float [0; 1; 2]%float false 0)
      (rhoc inputs.coarse) = Ok 2%float ∧
    np.linspace (stp inputs.coarse) 10 (pts inputs.coarse)
      = Ok (inputs.grid inputs.coarse) ∧
    vars.ys (inputs.vars0 inputs.coarse) !! 0
      = Some (2%float, (4 * np.pi * ref.pow (stp inputs.coarse) 3 * 2 / 3)%float) ∧
    length (vars.ys (inputs.vars0 inputs.coarse)) = length (inputs.grid inputs.coarse).
Proof.
  apply (setup_boundary_values ref.pow ref.np_interp ref.crust inputs.coarse
           (EosFunctions
              (scipy.Interp [0; 1; 2]%float [0; 0.5; 1]%float false 0)
              (scipy.Interp [0; 1; 2]%float [0.5; 0.5; 0.5]%float false 0)
              (scipy.Interp [0; 1; 2]%float [0; 1; 2]%float false 0))
           2%float (inputs.grid inputs.coarse) (inputs.vars0 inputs.coarse)).
  vm_compute. reflexivity.
Defined.

(** ** The unit converter *)

(** C9: the OUTPUT RESULTS cell computes R = Rsol*c/(1e5*(G*rhonuc)**0.5)
    and M = Msol*c**3/(G*(G*rhonuc)**0.5*Msun) from the solution and nothing
    else; and whenever [**] returns the square root of G*rhonuc and the cube
    of c to within one unit in the last place, converting the code-unit
    radius 1.0 and mass 1.0 and converting back gives 1.0 again, exactly. *)
Theorem unit_converter_round_trip pow (s : sol.t) :
  within_one_ulp (pow (G * rhonuc) 0.5)%float (PrimFloat.sqrt (G * rhonuc)) →
  within_one_ulp (pow c 3)%float (c * c * c)%float →
  NG.output_results pow s =
    ((sol.Rsol s * c / (1e5 * pow (G * rhonuc) 0.5))%float,
     (sol.Msol s * pow c 3 / (G * pow (G * rhonuc) 0.5 * Msun))%float) ∧
  Rsol_of_km pow (R_km pow 1) = 1%float ∧
  Msol_of_Msun pow (M_Msun pow 1) = 1%float.
Proof.
  intros Hsqrt Hcube. split; [done|].
  unfold Rsol_of_km, Msol_of_Msun, R_km, M_Msun.
  destruct Hsqrt as [-> | [-> | ->]]; (split; [vm_compute; reflexivity|]);
    destruct Hcube as [-> | [-> | ->]]; vm_compute; reflexivity.
Qed.

Lemma unit_converter_round_trip_ref :
  NG.output_results ref.pow (sol.Make [] [] [] (scipy.Interp [] [] true nan)
    (scipy.Interp [] [] true nan) (scipy.Interp [] [] true nan) 10 1) =
    ((10 * c / (1e5 * ref.pow (G * rhonuc) 0.5))%float,
     (1 * ref.pow c 3 / (G * ref.pow (G * rhonuc) 0.5 * Msun))%float) ∧
  Rsol_of_km ref.pow (R_km ref.pow 1) = 1%float ∧
  Msol_of_Msun ref.pow (M_Msun ref.pow 1) = 1%float.
Proof.
  apply (unit_converter_round_trip ref.pow).
  - left. vm_compute. reflexivity.
  - left. vm_compute. reflexivity.
Defined.

(** The radius printed under the Newtonian notebook, 706.247047551 km, is
    the conversion of [Rsol = 10.], the last radius of the grid. *)
Example printed_radius :
  (706.2470475505 <? R_km ref.pow 10)%float = true ∧
  (R_km ref.pow 10 <? 706.2470475515)%float = true.
Proof. vm_compute. split; reflexivity. Qed.

(** ** The library routines never reject what the notebooks do not check *)

Lemma length_insert_knot k l : length (scipy.insert_knot k l) = S (length l).
Proof.
  induction l as [|h t IH]; [done|]. simpl.
  destruct (scipy.sorts_before _ _); simpl; by rewrite ?IH.
Qed.

Lemma length_sort_knots l : length (scipy.sort_knots l) = length l.
Proof.
  induction l as [|k l IH]; [done|]. simpl.
  by rewrite length_insert_knot, IH.
Qed.

Lemma interp1d_Ok xs ys be fv :
  length xs = length ys → 2 ≤ length xs →
  ∃ f, scipy.interp1d xs ys be fv = Ok f ∧
       length (scipy.x f) = length xs ∧ length (scipy.y f) = length xs ∧
       scipy.bounds_error f = be ∧ scipy.fill_value f = fv.
Proof.
  intros Hlen Hn. unfold scipy.interp1d, scipy.minval.
  rewrite decide_True by done. rewrite decide_False by lia.
  eexists. split; [done|]. cbn.
  rewrite !length_fmap, length_sort_knots, length_zip. repeat split; lia.
Qed.

Lemma interp1d_short xs ys be fv :
  length xs < 2 → scipy.interp1d xs ys be fv = Raise ValueError.
Proof.
  intros Hn. unfold scipy.interp1d, scipy.minval.
  case_decide; [|done]. by rewrite decide_True.
Qed.

Lemma interp1d_mismatch xs ys be fv :
  length xs ≠ length ys → scipy.interp1d xs ys be fv = Raise ValueError.
Proof. intros Hn. unfold scipy.interp1d. by rewrite decide_False. Qed.

Lemma length_gradient_interior f : length (np.gradient_interior f) = length f - 2.
Proof.
  induction f as [|a [|b [|c f']] IH]; [done..|].
  change (np.gradient_interior (a :: b :: c :: f'))
    with (((c - a) / 2)%float :: np.gradient_interior (b :: c :: f')).
  cbn [length] in *. rewrite IH. lia.
Qed.

Lemma gradient_Ok f :
  2 ≤ length f → ∃ g, np.gradient f = Ok g ∧ length g = length f.
Proof.
  intros Hn. unfold np.gradient.
  destruct f as [|f0 [|f1 f']]; [simpl in Hn; lia..|].
  destruct (reverse (f0 :: f1 :: f')) as [|l0 [|l1 l']] eqn:Hr.
  - apply (f_equal length) in Hr. rewrite length_reverse in Hr. done.
  - apply (f_equal length) in Hr. rewrite length_reverse in Hr. done.
  - eexists. split; [done|].
    cbn [length]. rewrite length_app, length_gradient_interior. simpl. lia.
Qed.

Lemma call_fill np_interp f x_new :
  scipy.bounds_error f = false → 0 < length (scipy.x f) →
  is_Ok (scipy.call np_interp f x_new).
Proof.
  intros Hbe Hn. unfold scipy.call.
  rewrite (getitem_total (scipy.x f) 0), bind_Ok by done.
  rewrite (getitem_neg_total (scipy.x f) 1), bind_Ok by lia.
  rewrite Hbe. cbn [andb]. destruct (_ || _); by eexists.
Qed.

Lemma call_array_fill np_interp f xs :
  scipy.bounds_error f = false → 0 < length (scipy.x f) →
  ∃ ys, scipy.call_array np_interp f xs = Ok ys ∧ length ys = length xs.
Proof.
  intros Hbe Hn. unfold scipy.call_array.
  induction xs as [|a xs (ys & Hys & Hlen)]; [by exists []|].
  destruct (call_fill np_interp f a Hbe Hn) as [b Hb].
  exists (b :: ys). cbn [result_mapM]. rewrite Hb, bind_Ok, Hys, bind_Ok.
  split; [done|]. simpl. by rewrite Hlen.
Qed.

Lemma linspace_Ok start stop num :
  (0 ≤ num)%Z →
  ∃ l, np.linspace start stop num = Ok l ∧ length l = Z.to_nat num.
Proof.
  intros Hnum. unfold np.linspace. rewrite decide_False by lia.
  eexists. split; [done|]. cbv zeta.
  repeat case_decide; try destruct (_ =? 0)%float;
    rewrite ?length_insert, !length_fmap, length_seq; done.
Qed.

Lemma intpeos_Ok rhodat mudat pdat :
  length mudat = length rhodat → length pdat = length rhodat → 2 ≤ length rhodat →
  ∃ f, intpeos rhodat mudat pdat = Ok f ∧
       scipy.bounds_error (p f) = false ∧ 0 < length (scipy.x (p f)) ∧
       scipy.bounds_error (Mu f) = false ∧ 0 < length (scipy.x (Mu f)).
Proof.
  intros Hmu Hp Hn. unfold intpeos.
  destruct (interp1d_Ok mudat pdat false 0%float) as (fp & -> & Hxp & _ & Hbp & _);
    [lia..|].
  destruct (gradient_Ok pdat) as (gp & -> & Hgp); [lia|].
  destruct (gradient_Ok mudat) as (gmu & -> & Hgmu); [lia|].
  rewrite !bind_Ok. unfold np.divide. rewrite decide_True by lia. rewrite bind_Ok.
  destruct (interp1d_Ok mudat (zip_with (λ u v, (u / v)%float) gp gmu) false 0%float)
    as (fd & -> & _); [rewrite length_zip_with; lia | lia |].
  destruct (interp1d_Ok rhodat mudat false 0%float) as (fm & -> & Hxm & _ & Hbm & _);
    [lia..|].
  rewrite !bind_Ok. eexists. split; [done|]. cbn. repeat split; (done || lia).
Qed.

Lemma intpeos_short rhodat mudat pdat :
  length mudat < 2 ∨ length pdat ≠ length mudat →
  intpeos rhodat mudat pdat = Raise ValueError.
Proof.
  intros H. unfold intpeos.
  destruct (decide (length mudat = length pdat)) as [Heq|Hne].
  - rewrite (interp1d_short mudat pdat); [done|]. destruct H; [done|congruence].
  - by rewrite (interp1d_mismatch mudat pdat).
Qed.

(** C7, as the code has it: the notebook checks neither the table nor the
    central density.  A table with fewer than two rows is turned down before
    the loop, by [interp1d].  For every other table, monotonic or not, and
    every central density, positive or not: when [stp**3] overflows the
    set-up raises [OverflowError]; otherwise the set-up passes as soon as
    the grid has one point, with the boundary values in row 0 of [ys]; and
    with two or more grid points the first iteration calls the solver on
    these boundary values over the first grid interval and stores what it
    returns in row 1. *)
Theorem setup_checks_nothing pow np_interp odeint crust prm rhodat mudat pdat :
  crust (eos prm) = (rhodat, mudat, pdat) →
  length pdat = length rhodat →
  (length rhodat < 2 → NG.setup pow np_interp crust prm = Raise ValueError) ∧
  (2 ≤ length rhodat → overflows pow (stp prm) 3 = true →
     NG.setup pow np_interp crust prm = Raise OverflowError) ∧
  (2 ≤ length rhodat → overflows pow (stp prm) 3 = false → (1 ≤ pts prm)%Z →
     ∃ f muc rlist v0,
       NG.setup pow np_interp crust prm = Ok (f, muc, rlist, v0) ∧
       let y0 := (muc, (4 * np.pi * pow (stp prm) 3 * muc / 3)%float) in
       vars.ys v0 !! 0 = Some y0 ∧
       ((2 ≤ pts prm)%Z →
          ∃ r0 r1 v1 broke,
            rlist !! 0 = Some r0 ∧ rlist !! 1 = Some r1 ∧
            loop_body odeint (NG.struceqs pow) (tol prm) rlist 0 v0 = Ok (v1, broke) ∧
            vars.ys v1 !! 1 = Some (odeint (NG.struceqs pow) y0 (r0, r1)).2)).
Proof.
  intros Hcrust Hp. unfold NG.setup, geteos. rewrite Hcrust.
  split; [|split].
  - intros Hn. by rewrite intpeos_short by (by left).
  - intros Hn Hover.
    destruct (intpeos_Ok rhodat rhodat pdat) as (f & -> & _ & _ & Hbm & Hxm);
      [done..|].
    rewrite bind_Ok.
    destruct (call_fill np_interp (Mu f) (rhoc prm) Hbm Hxm) as [muc ->].
    by rewrite bind_Ok, float_pow_overflow.
  - intros Hn Hover Hpts.
    destruct (intpeos_Ok rhodat rhodat pdat) as (f & -> & _ & _ & Hbm & Hxm);
      [done..|].
    rewrite bind_Ok.
    destruct (call_fill np_interp (Mu f) (rhoc prm) Hbm Hxm) as [muc ->].
    rewrite bind_Ok, float_pow_Ok, bind_Ok by done.
    destruct (linspace_Ok (stp prm) 10 (pts prm)) as (rlist & -> & Hlen); [lia|].
    rewrite bind_Ok.
    rewrite setitem_lt, bind_Ok by (unfold np.zeros; rewrite length_replicate; lia).
    rewrite getitem_neg_total, bind_Ok by lia.
    do 4 eexists. split; [done|]. cbv zeta. cbn [vars.ys].
    assert (length (np.zeros (length rlist)) = length rlist) as Hz
      by (unfold np.zeros; by rewrite length_replicate).
    split; [apply list_lookup_insert_eq; lia|].
    intros Hpts2.
    match goal with
    | |- context [loop_body _ _ _ _ 0 ?v] =>
        destruct (loop_body_first odeint (NG.struceqs pow) (tol prm) rlist v)
          as (v1 & Hbody & Hrow); [cbn [vars.ys]; rewrite length_insert; lia | lia |]
    end.
    cbn [vars.ys] in Hbody, Hrow.
    rewrite list_lookup_total_insert_eq in Hbody, Hrow by lia.
    exists (rlist !!! 0), (rlist !!! 1), v1. eexists.
    split; [apply list_lookup_lookup_total_lt; lia|].
    split; [apply list_lookup_lookup_total_lt; lia|].
    split; [exact Hbody|exact Hrow].
Qed.

(** The set-up on three worked inputs: the table of one row is turned down,
    a starting step of 1e200 overflows, and the negative central density
    goes through and the solver is called. *)
Lemma setup_checks_nothing_runs :
  NG.setup ref.pow ref.np_interp ref.crust inputs.one_row = Raise ValueError ∧
  NG.setup ref.pow ref.np_interp ref.crust (Params inputs.toy 2 1e200 6 1e-6)
    = Raise OverflowError ∧
  ∃ f muc rlist v0,
    NG.setup ref.pow ref.np_interp ref.crust inputs.negative_rhoc
      = Ok (f, muc, rlist, v0) ∧
    ∃ r0 r1 v1 broke,
      rlist !! 0 = Some r0 ∧ rlist !! 1 = Some r1 ∧
      loop_body ref.odeint (NG.struceqs ref.pow) (tol inputs.negative_rhoc)
        rlist 0 v0 = Ok (v1, broke) ∧
      vars.ys v1 !! 1 =
        Some (ref.odeint (NG.struceqs ref.pow)
                (muc, (4 * np.pi * ref.pow (stp inputs.negative_rhoc) 3 * muc / 3)%float)
                (r0, r1)).2.
Proof.
  split; [|split].
  - apply (setup_checks_nothing ref.pow ref.np_interp ref.odeint ref.crust
             inputs.one_row [1]%float [1]%float [0.5]%float);
      [reflexivity | reflexivity | cbn; lia].
  - apply (setup_checks_nothing ref.pow ref.np_interp ref.odeint ref.crust
             (Params inputs.toy 2 1e200 6 1e-6) [0; 1; 2]%float [0; 1; 2]%float
             [0; 0.5; 1]%float);
      [reflexivity | reflexivity | cbn; lia | vm_compute; reflexivity].
  - destruct (setup_checks_nothing ref.pow ref.np_interp ref.odeint ref.crust
                inputs.negative_rhoc [0; 1; 2]%float [0; 1; 2]%float
                [0; 0.5; 1]%float) as (_ & _ & Hlong); [reflexivity | reflexivity |].
    destruct Hlong as (f & muc & rlist & v0 & Hsetup & _ & Hloop);
      [cbn; lia | vm_compute; reflexivity | cbn; lia |].
    exists f, muc, rlist, v0. split; [exact Hsetup|]. apply Hloop. cbn. lia.
Defined.

(** C7 as stated fails: a negative central density and a table whose rows
    are out of order both pass the set-up, and with the negative density
    the first iteration of the loop calls the solver, whichever solver it
    is. *)
Lemma negative_density_reaches_the_loop :
  (rhoc inputs.negative_rhoc <? 0)%float = true ∧
  (∃ f muc rlist v0,
     NG.setup ref.pow ref.np_interp ref.crust inputs.negative_rhoc
       = Ok (f, muc, rlist, v0) ∧
     ∀ odeint, ∃ v1 broke,
       loop_body odeint (NG.struceqs ref.pow) (tol inputs.negative_rhoc) rlist 0 v0
         = Ok (v1, broke) ∧
       vars.ys v1 !! 1 =
         Some (odeint (NG.struceqs ref.pow) (vars.ys v0 !!! 0)
                 (rlist !!! 0, rlist !!! 1)).2) ∧
  (∃ f muc rlist v0,
     NG.setup ref.pow ref.np_interp ref.crust inputs.unsorted = Ok (f, muc, rlist, v0)).
Proof.
  split; [vm_compute; reflexivity|]. split.
  - do 4 eexists. split; [vm_compute; reflexivity|].
    intros odeint.
    match goal with
    | |- context [loop_body _ _ _ ?r 0 ?v] =>
        destruct (loop_body_first odeint (NG.struceqs ref.pow)
                    (tol inputs.negative_rhoc) r v)
          as (v1 & Hbody & Hrow); [vm_compute; reflexivity | vm_compute; lia |]
    end.
    exists v1. eexists. split; [exact Hbody|exact Hrow].
  - do 4 eexists. vm_compute. reflexivity.
Qed.

(** ** Ascending grids *)

Lemma ascending_cons a l : ascending (a :: l) = true → ascending l = true.
Proof. destruct l as [|b l]; [done|]. cbn. by intros [_ ?]%andb_true_iff. Qed.

Lemma ascending_take k : ∀ l, ascending l = true → ascending (take k l) = true.
Proof.
  induction k as [|k IH]; intros [|a l] H; [done..|].
  specialize (IH l (ascending_cons _ _ H)).
  destruct l as [|b l]; [by destruct k|].
  destruct k as [|k]; [done|].
  cbn in H |- *. apply andb_true_iff in H as [-> _]. exact IH.
Qed.

Lemma ascending_lookup_lt l : ∀ i j a b,
  ascending l = true → i < j → l !! i = Some a → l !! j = Some b →
  (a <? b)%float = true.
Proof.
  induction l as [|h l IH]; intros i j a b H Hij Hi Hj; [done|].
  destruct i as [|i].
  - injection Hi as ->. destruct j as [|j]; [lia|]. cbn in Hj.
    destruct l as [|h' l]; [done|].
    cbn in H. apply andb_true_iff in H as [Hah H].
    destruct j as [|j].
    + by injection Hj as ->.
    + apply (float_order.ltb_trans _ h'); [done|].
      by apply (IH 0 (S j)); [|lia|..].
  - destruct j as [|j]; [lia|].
    apply (IH i j); [by eapply ascending_cons|lia|done..].
Qed.

(** Sorting the knots of an ascending grid leaves them in place. *)
Lemma sort_knots_ascending xs : ∀ ys,
  ascending xs = true → scipy.sort_knots (zip xs ys) = zip xs ys.
Proof.
  induction xs as [|a xs IH]; intros [|y ys] H; [done..|].
  cbn [zip zip_with scipy.sort_knots foldr].
  change (foldr scipy.insert_knot [] (zip xs ys)) with (scipy.sort_knots (zip xs ys)).
  rewrite (IH ys (ascending_cons _ _ H)).
  destruct xs as [|b xs]; [done|]. destruct ys as [|y' ys]; [done|].
  cbn in H |- *. apply andb_true_iff in H as [Hab _].
  unfold scipy.sorts_before, is_nan. cbn [fst].
  destruct (float_order.ltb_number _ _ Hab) as [-> _].
  by rewrite (float_order.ltb_asym _ _ Hab).
Qed.

Lemma interp1d_ascending xs ys be fv :
  ascending xs = true → length xs = length ys → 2 ≤ length xs →
  scipy.interp1d xs ys be fv = Ok (scipy.Interp xs ys be fv).
Proof.
  intros Hasc Hlen Hn. unfold scipy.interp1d, scipy.minval.
  rewrite decide_True by done. rewrite decide_False by lia.
  rewrite sort_knots_ascending by done.
  by rewrite fst_zip, snd_zip by lia.
Qed.

(** ** After the loop *)

Lemma truncate_Some rlist v i :
  vars.i v = Some i →
  truncate rlist v =
  Ok (take (i + 1) rlist, (take (i + 1) (vars.ys v)).*1, (take (i + 1) (vars.ys v)).*2).
Proof. intros Hi. unfold truncate, read_i. by rewrite Hi. Qed.

(** What a successful end of the Newtonian cell has computed. *)
Lemma NG_finish_inv np_interp f rlist v s :
  NG.finish np_interp f rlist v = Ok s →
  ∃ i fill pmu,
    vars.i v = Some i ∧
    sol.rlist s = take (i + 1) rlist ∧
    sol.musoldat s = (take (i + 1) (vars.ys v)).*1 ∧
    sol.msoldat s = (take (i + 1) (vars.ys v)).*2 ∧
    sol.Rsol s = vars.Rsol v ∧
    scipy.interp1d_default (sol.rlist s) (sol.musoldat s) = Ok (sol.musol s) ∧
    getitem_neg (sol.msoldat s) 1 = Ok fill ∧
    scipy.interp1d (sol.rlist s) (sol.msoldat s) false fill = Ok (sol.msol s) ∧
    scipy.call_array np_interp (p f) (sol.musoldat s) = Ok pmu ∧
    scipy.interp1d_default (sol.rlist s) pmu = Ok (sol.psol s) ∧
    scipy.call np_interp (sol.msol s) (sol.Rsol s) = Ok (sol.Msol s).
Proof.
  unfold NG.finish. intros H.
  apply bind_Ok_inv in H as ([[r' mus] ms] & Htr & H).
  unfold truncate in Htr. apply bind_Ok_inv in Htr as (i & Hi & Htr).
  injection Htr as <- <- <-.
  unfold read_i in Hi. destruct (vars.i v) as [i'|] eqn:Hi'; [|done].
  injection Hi as ->.
  inv_bind H. injection H as <-. cbn.
  exists i, a0, a2. repeat split; done.
Qed.

Lemma NG_finish_Ok np_interp f rlist v i :
  scipy.bounds_error (p f) = false → 0 < length (scipy.x (p f)) →
  vars.i v = Some i → 1 ≤ i → i + 1 ≤ length rlist →
  length (vars.ys v) = length rlist →
  is_Ok (NG.finish np_interp f rlist v).
Proof.
  intros Hbe Hx Hi Hi1 Hin Hlen. unfold NG.finish.
  rewrite (truncate_Some _ _ _ Hi), bind_Ok.
  assert (length (take (i + 1) rlist) = i + 1) as Hr by (rewrite length_take; lia).
  assert (length (take (i + 1) (vars.ys v)) = i + 1) as Hy by (rewrite length_take; lia).
  destruct (interp1d_Ok (take (i + 1) rlist) (take (i + 1) (vars.ys v)).*1 true nan)
    as (musol & Hmusol & _); [rewrite length_fmap; lia | lia |].
  unfold scipy.interp1d_default. rewrite Hmusol, bind_Ok.
  rewrite getitem_neg_total, bind_Ok by (rewrite length_fmap; lia).
  destruct (interp1d_Ok (take (i + 1) rlist) (take (i + 1) (vars.ys v)).*2 false
              ((take (i + 1) (vars.ys v)).*2
                 !!! (length (take (i + 1) (vars.ys v)).*2 - 1)))
    as (msol & -> & Hxm & _ & Hbm & _); [rewrite length_fmap; lia | lia |].
  rewrite bind_Ok.
  destruct (call_array_fill np_interp (p f) (take (i + 1) (vars.ys v)).*1 Hbe Hx)
    as (pmu & -> & Hpmu).
  rewrite bind_Ok. rewrite length_fmap in Hpmu.
  destruct (interp1d_Ok (take (i + 1) rlist) pmu true nan) as (psol & -> & _);
    [lia..|].
  rewrite bind_Ok.
  destruct (call_fill np_interp msol (vars.Rsol v)) as [Msol ->]; [done|lia|].
  rewrite bind_Ok. by eexists.
Qed.

Lemma Skeleton_finish_inv np_interp f rlist v s :
  Skeleton.finish np_interp f rlist v = Ok s →
  ∃ i pmu,
    vars.i v = Some i ∧
    sol.rlist s = take (i + 1) rlist ∧
    sol.musoldat s = (take (i + 1) (vars.ys v)).*1 ∧
    sol.msoldat s = (take (i + 1) (vars.ys v)).*2 ∧
    sol.Rsol s = vars.Rsol v ∧
    scipy.interp1d_default (sol.rlist s) (sol.musoldat s) = Ok (sol.musol s) ∧
    scipy.interp1d_default (sol.rlist s) (sol.msoldat s) = Ok (sol.msol s) ∧
    scipy.call_array np_interp (p f) (sol.musoldat s) = Ok pmu ∧
    scipy.interp1d_default (sol.rlist s) pmu = Ok (sol.psol s) ∧
    scipy.call np_interp (sol.msol s) (sol.Rsol s) = Ok (sol.Msol s).
Proof.
  unfold Skeleton.finish. intros H.
  apply bind_Ok_inv in H as ([[r' mus] ms] & Htr & H).
  unfold truncate in Htr. apply bind_Ok_inv in Htr as (i & Hi & Htr).
  injection Htr as <- <- <-.
  unfold read_i in Hi. destruct (vars.i v) as [i'|] eqn:Hi'; [|done].
  injection Hi as ->.
  inv_bind H. injection H as <-. cbn.
  exists i, a1. repeat split; done.
Qed.

(** Calling an interpolant of an ascending grid at its last knot stays
    inside the bounds. *)
Lemma call_at_last_knot np_interp xs ys be fv :
  ascending xs = true → 2 ≤ length xs →
  is_Ok (scipy.call np_interp (scipy.Interp xs ys be fv) (xs !!! (length xs - 1))).
Proof.
  intros Hasc Hn. unfold scipy.call. cbn [scipy.x scipy.y scipy.bounds_error].
  rewrite (getitem_total xs 0), bind_Ok by lia.
  rewrite (getitem_neg_total xs 1), bind_Ok by lia.
  rewrite float_order.ltb_irrefl, orb_false_r.
  rewrite (float_order.ltb_asym (xs !!! 0) (xs !!! (length xs - 1))).
  - rewrite andb_false_r. by eexists.
  - apply (ascending_lookup_lt xs 0 (length xs - 1)); [done|lia|..];
      apply list_lookup_lookup_total_lt; lia.
Qed.

Lemma Skeleton_finish_Ok np_interp f rlist v i :
  scipy.bounds_error (p f) = false → 0 < length (scipy.x (p f)) →
  vars.i v = Some i → 1 ≤ i → i + 1 ≤ length rlist →
  length (vars.ys v) = length rlist →
  ascending rlist = true →
  vars.Rsol v = rlist !!! i →
  is_Ok (Skeleton.finish np_interp f rlist v).
Proof.
  intros Hbe Hx Hi Hi1 Hin Hlen Hasc HR. unfold Skeleton.finish.
  rewrite (truncate_Some _ _ _ Hi), bind_Ok.
  assert (length (take (i + 1) rlist) = i + 1) as Hr by (rewrite length_take; lia).
  assert (length (take (i + 1) (vars.ys v)) = i + 1) as Hy by (rewrite length_take; lia).
  pose proof (ascending_take (i + 1) _ Hasc) as Hasc'.
  unfold scipy.interp1d_default.
  rewrite !interp1d_ascending, !bind_Ok by (done || rewrite ?length_fmap; lia).
  destruct (call_array_fill np_interp (p f) (take (i + 1) (vars.ys v)).*1 Hbe Hx)
    as (pmu & -> & Hpmu).
  rewrite bind_Ok. rewrite length_fmap in Hpmu.
  rewrite interp1d_ascending, bind_Ok by (done || lia).
  replace (vars.Rsol v)
    with (take (i + 1) rlist !!! (length (take (i + 1) rlist) - 1)).
  - destruct (call_at_last_knot np_interp (take (i + 1) rlist)
                (take (i + 1) (vars.ys v)).*2 true nan) as [Msol ->]; [done|lia|].
    rewrite bind_Ok. by eexists.
  - rewrite HR, Hr. replace (i + 1 - 1) with i by lia.
    by rewrite lookup_total_take_lt by lia.
Qed.

Lemma call_above_bounds np_interp f x_new :
  0 < length (scipy.x f) →
  (scipy.x f !!! (length (scipy.x f) - 1)%nat <? x_new)%float = true →
  scipy.call np_interp f x_new =
  if scipy.bounds_error f then Raise ValueError else Ok (scipy.fill_value f).
Proof.
  intros Hn Habove. unfold scipy.call.
  rewrite (getitem_total (scipy.x f) 0), bind_Ok by done.
  rewrite (getitem_neg_total (scipy.x f) 1), bind_Ok by lia.
  rewrite Habove, orb_true_r, andb_true_r. by destruct (scipy.bounds_error f).
Qed.

Lemma interp1d_inv xs ys be fv f :
  scipy.interp1d xs ys be fv = Ok f →
  scipy.bounds_error f = be ∧ scipy.fill_value f = fv ∧
  length (scipy.x f) = length xs ∧ 2 ≤ length xs.
Proof.
  unfold scipy.interp1d, scipy.minval.
  case_decide as Hlen; [|done]. case_decide as Hn; [done|].
  intros [= <-]. cbn.
  rewrite length_fmap, length_sort_knots, length_zip. repeat split; lia.
Qed.

Lemma intpeos_inv rhodat mudat pdat f :
  intpeos rhodat mudat pdat = Ok f →
  scipy.bounds_error (p f) = false ∧ 0 < length (scipy.x (p f)).
Proof.
  unfold intpeos. intros H. inv_bind H. injection H as <-. cbn.
  destruct (interp1d_inv _ _ _ _ _ Ha) as (? & _ & ? & ?). split; [done|lia].
Qed.

(** The state of the Newtonian cell when it reaches the [for] statement. *)
Lemma NG_setup_inv pow np_interp crust prm f muc rlist v0 :
  NG.setup pow np_interp crust prm = Ok (f, muc, rlist, v0) →
  scipy.bounds_error (p f) = false ∧ 0 < length (scipy.x (p f)) ∧
  0 < length rlist ∧
  length (vars.ys v0) = length rlist ∧
  vars.Rsol v0 = rlist !!! (length rlist - 1) ∧
  vars.i v0 = None.
Proof.
  unfold NG.setup. destruct (geteos crust (eos prm)) as [[rhodat mudat] pdat].
  intros H. inv_bind H. injection H as <- <- <- <-.
  destruct (intpeos_inv _ _ _ _ Ha) as [? ?].
  unfold setitem in Ha3. case_decide as Hn; [|done]. injection Ha3 as <-.
  unfold np.zeros in *. rewrite length_replicate in Hn.
  unfold getitem_neg in Ha4. case_decide as Hn'; [|done].
  rewrite getitem_total in Ha4 by lia. injection Ha4 as <-.
  cbn. rewrite length_insert, length_replicate. repeat split; done.
Qed.

Lemma Skeleton_setup_inv crust prm f rlist v0 :
  Skeleton.setup crust prm = Ok (f, rlist, v0) →
  scipy.bounds_error (p f) = false ∧ 0 < length (scipy.x (p f)) ∧
  1 < length rlist ∧
  length (vars.ys v0) = length rlist ∧
  vars.Rsol v0 = rlist !!! (length rlist - 2) ∧
  vars.i v0 = None.
Proof.
  unfold Skeleton.setup. destruct (geteos crust (eos prm)) as [[rhodat mudat] pdat].
  intros H. inv_bind H. injection H as <- <- <-.
  destruct (intpeos_inv _ _ _ _ Ha) as [? ?].
  unfold setitem in Ha1. case_decide as Hn; [|done]. injection Ha1 as <-.
  unfold np.zeros in *. rewrite length_replicate in Hn.
  unfold getitem_neg in Ha2. case_decide as Hn'; [|done].
  rewrite getitem_total in Ha2 by lia. injection Ha2 as <-.
  cbn. rewrite length_insert, length_replicate. repeat split; (done || lia).
Qed.

(** ** The right-hand side that the solver is given *)



(** ** Grids of one and of two points *)

Lemma NG_finish_one_row np_interp f rlist v :
  vars.i v = Some 0 → NG.finish np_interp f rlist v = Raise ValueError.
Proof.
  intros Hi. unfold NG.finish. rewrite (truncate_Some _ _ _ Hi), bind_Ok.
  unfold scipy.interp1d_default.
  rewrite (interp1d_short (take (0 + 1) rlist)); [done|].
  rewrite length_take. lia.
Qed.

Lemma Skeleton_finish_one_row np_interp f rlist v :
  vars.i v = Some 0 → Skeleton.finish np_interp f rlist v = Raise ValueError.
Proof.
  intros Hi. unfold Skeleton.finish. rewrite (truncate_Some _ _ _ Hi), bind_Ok.
  unfold scipy.interp1d_default.
  rewrite (interp1d_short (take (0 + 1) rlist) (take (0 + 1) (vars.ys v)).*1);
    [done|].
  rewrite length_take. lia.
Qed.

(** On a grid of two points the loop runs its only iteration, whether it
    breaks there or not. *)
Lemma integrate_two_points odeint struceqs tol rlist v :
  length (vars.ys v) = length rlist → length rlist = 2 →
  ∃ v', integrate odeint struceqs tol rlist v = Ok v' ∧ vars.i v' = Some 0.
Proof.
  intros Hlen Hn.
  rewrite (integrate_stored _ _ _ _ (vars.ys v) Hlen) by (lia || done).
  rewrite Hn. eexists. split; [done|]. cbn [Nat.sub first_fire].
  by destruct (fires _ _ _ _ _ 0).
Qed.

Lemma NG_run_two_points pow np_interp odeint crust prm f muc rlist v0 :
  NG.setup pow np_interp crust prm = Ok (f, muc, rlist, v0) →
  length rlist = 2 →
  NG.run_code pow np_interp odeint crust prm = Raise ValueError.
Proof.
  intros Hsetup Hn.
  destruct (NG_setup_inv _ _ _ _ _ _ _ _ Hsetup) as (_ & _ & _ & Hlen & _).
  unfold NG.run_code. rewrite Hsetup, bind_Ok.
  destruct (integrate_two_points odeint (NG.struceqs pow) (tol prm) rlist v0)
    as (v' & -> & Hi'); [done..|].
  rewrite bind_Ok. by apply NG_finish_one_row.
Qed.

Lemma NG_run_one_point pow np_interp odeint crust prm f muc rlist v0 :
  NG.setup pow np_interp crust prm = Ok (f, muc, rlist, v0) →
  length rlist = 1 →
  NG.run_code pow np_interp odeint crust prm = Raise NameError.
Proof.
  intros Hsetup Hn.
  destruct (NG_setup_inv _ _ _ _ _ _ _ _ Hsetup) as (_ & _ & _ & _ & _ & Hi).
  unfold NG.run_code. rewrite Hsetup, bind_Ok.
  unfold integrate. rewrite Hn. cbn [Nat.sub seq for_range]. rewrite bind_Ok.
  unfold NG.finish, truncate, read_i. by rewrite Hi.
Qed.

Lemma Skeleton_run_two_points np_interp odeint crust prm f rlist v0 :
  Skeleton.setup crust prm = Ok (f, rlist, v0) →
  length rlist = 2 →
  Skeleton.run_code np_interp odeint crust prm = Raise ValueError.
Proof.
  intros Hsetup Hn.
  destruct (Skeleton_setup_inv _ _ _ _ _ Hsetup) as (_ & _ & _ & Hlen & _).
  unfold Skeleton.run_code. rewrite Hsetup, bind_Ok.
  destruct (integrate_two_points odeint Skeleton.struceqs (tol prm) rlist v0)
    as (v' & -> & Hi'); [done..|].
  rewrite bind_Ok. by apply Skeleton_finish_one_row.
Qed.

(** With a single grid point the skeleton stops at [Rsol = rlist[-2]]. *)
Lemma Skeleton_run_one_point np_interp odeint crust prm rhodat mudat pdat :
  crust (eos prm) = (rhodat, mudat, pdat) →
  length pdat = length rhodat → 2 ≤ length rhodat →
  pts prm = 1%Z →
  Skeleton.run_code np_interp odeint crust prm = Raise IndexError.
Proof.
  intros Hcrust Hp Hn Hpts.
  destruct (intpeos_Ok rhodat rhodat pdat) as (f & Hf & _); [done..|].
  unfold Skeleton.run_code, Skeleton.setup, geteos.
  rewrite Hcrust, Hf, !bind_Ok.
  unfold np.linspace. by rewrite Hpts.
Qed.

(** ** Grid exhaustion *)

Lemma first_fire_None_inv odeint struceqs tol rlist ys0 len : ∀ k,
  first_fire odeint struceqs tol rlist ys0 k len = None →
  ∀ j, k ≤ j < k + len → fires odeint struceqs tol rlist ys0 j = false.
Proof.
  induction len as [|len IH]; intros k Hscan j Hj; [lia|].
  cbn [first_fire] in Hscan.
  destruct (fires odeint struceqs tol rlist ys0 k) eqn:Hk; [done|].
  destruct (decide (j = k)) as [->|Hne]; [done|].
  apply (IH (S k)); [done|lia].
Qed.

Lemma never_fires_by_scan odeint struceqs tol rlist ys0 :
  first_fire odeint struceqs tol rlist ys0 0 (length rlist - 1) = None →
  ∀ j, j + 1 < length rlist → fires odeint struceqs tol rlist ys0 j = false.
Proof.
  intros Hscan j Hj. apply (first_fire_None_inv _ _ _ _ _ _ 0 Hscan). lia.
Qed.

(** C4, as the code has it: when no grid point triggers the test, a grid of
    at least three points lets the Newtonian run end without an exception,
    with [Rsol] the last grid radius [rlist[-1]]; in the skeleton notebook
    an ascending grid of at least three points lets the run end without an
    exception, with [Rsol] the second-to-last grid radius [rlist[-2]].  In
    both, the output cell then converts that radius and the mass.  Shorter
    grids raise, whatever the solver returns: with two points both notebooks
    raise [ValueError], because the slices keep a single knot for
    [interp1d]; with one point the Newtonian notebook raises [NameError]
    when it reads [i], which the loop never assigned, and the skeleton
    raises [IndexError] when it reads [rlist[-2]]. *)
Theorem exhausted_grid_is_soft_failure pow np_interp odeint crust prm :
  (∀ f muc rlist v0,
     NG.setup pow np_interp crust prm = Ok (f, muc, rlist, v0) →
     3 ≤ length rlist →
     (∀ j, j + 1 < length rlist →
        fires odeint (NG.struceqs pow) (tol prm) rlist (vars.ys v0) j = false) →
     ∃ s, NG.run_code pow np_interp odeint crust prm = Ok s ∧
          getitem_neg rlist 1 = Ok (sol.Rsol s) ∧
          NG.output_results pow s = (R_km pow (sol.Rsol s), M_Msun pow (sol.Msol s))) ∧
  (∀ f rlist v0,
     Skeleton.setup crust prm = Ok (f, rlist, v0) →
     3 ≤ length rlist →
     ascending rlist = true →
     (∀ j, j + 1 < length rlist →
        fires odeint Skeleton.struceqs (tol prm) rlist (vars.ys v0) j = false) →
     ∃ s, Skeleton.run_code np_interp odeint crust prm = Ok s ∧
          getitem_neg rlist 2 = Ok (sol.Rsol s) ∧
          Skeleton.output_results pow s =
            (R_km pow (sol.Rsol s), M_Msun pow (sol.Msol s))) ∧
  (∀ f muc rlist v0,
     NG.setup pow np_interp crust prm = Ok (f, muc, rlist, v0) →
     length rlist = 2 →
     NG.run_code pow np_interp odeint crust prm = Raise ValueError) ∧
  (∀ f rlist v0,
     Skeleton.setup crust prm = Ok (f, rlist, v0) →
     length rlist = 2 →
     Skeleton.run_code np_interp odeint crust prm = Raise ValueError) ∧
  (∀ f muc rlist v0,
     NG.setup pow np_interp crust prm = Ok (f, muc, rlist, v0) →
     length rlist = 1 →
     NG.run_code pow np_interp odeint crust prm = Raise NameError) ∧
  (∀ rhodat mudat pdat,
     crust (eos prm) = (rhodat, mudat, pdat) →
     length pdat = length rhodat → 2 ≤ length rhodat →
     pts prm = 1%Z →
     Skeleton.run_code np_interp odeint crust prm = Raise IndexError).
Proof.
  split; [|split; [|split; [|split; [|split]]]].
  - intros f muc rlist v0 Hsetup Hn Hnone.
    destruct (NG_setup_inv _ _ _ _ _ _ _ _ Hsetup) as (Hbe & Hx & _ & Hlen & HR & _).
    unfold NG.run_code. rewrite Hsetup, bind_Ok.
    rewrite integrate_exhausted, bind_Ok by (done || lia).
    destruct (NG_finish_Ok np_interp f rlist
                (vars.Make (stored odeint (NG.struceqs pow) rlist (vars.ys v0)
                              (length rlist - 1)) (vars.Rsol v0)
                   (Some (length rlist - 2))) (length rlist - 2)) as [s Hs];
      [done.. | lia | lia | cbn [vars.ys]; rewrite length_stored; lia |].
    exists s. split; [done|].
    destruct (NG_finish_inv _ _ _ _ _ Hs) as (i & fill & pmu & _ & _ & _ & _ & HRs & _).
    split; [|done]. rewrite HRs. cbn [vars.Rsol]. rewrite HR.
    apply getitem_neg_total. lia.
  - intros f rlist v0 Hsetup Hn Hasc Hnone.
    destruct (Skeleton_setup_inv _ _ _ _ _ Hsetup) as (Hbe & Hx & _ & Hlen & HR & _).
    unfold Skeleton.run_code. rewrite Hsetup, bind_Ok.
    rewrite integrate_exhausted, bind_Ok by (done || lia).
    destruct (Skeleton_finish_Ok np_interp f rlist
                (vars.Make (stored odeint Skeleton.struceqs rlist (vars.ys v0)
                              (length rlist - 1)) (vars.Rsol v0)
                   (Some (length rlist - 2))) (length rlist - 2)) as [s Hs];
      [done.. | lia | lia | cbn [vars.ys]; rewrite length_stored; lia | done | done |].
    exists s. split; [done|].
    destruct (Skeleton_finish_inv _ _ _ _ _ Hs) as (i & pmu & _ & _ & _ & _ & HRs & _).
    split; [|done]. rewrite HRs. cbn [vars.Rsol]. rewrite HR.
    apply getitem_neg_total. lia.
  - intros f muc rlist v0. apply NG_run_two_points.
  - intros f rlist v0. apply Skeleton_run_two_points.
  - intros f muc rlist v0. apply NG_run_one_point.
  - intros rhodat mudat pdat. apply Skeleton_run_one_point.
Qed.

(** Exhausted runs of both notebooks, the Newtonian one on [dilute], the
    skeleton on [outer_shell]; and the grids of two points and of one. *)
Lemma exhausted_grid_is_soft_failure_runs :
  (∃ s, NG.run_code ref.pow ref.np_interp ref.odeint ref.crust inputs.dilute = Ok s ∧
        getitem_neg (inputs.grid inputs.dilute) 1 = Ok (sol.Rsol s) ∧
        NG.output_results ref.pow s =
          (R_km ref.pow (sol.Rsol s), M_Msun ref.pow (sol.Msol s))) ∧
  (∃ s, Skeleton.run_code ref.np_interp ref.odeint ref.crust inputs.outer_shell = Ok s ∧
        getitem_neg (inputs.skeleton_grid inputs.outer_shell) 2 = Ok (sol.Rsol s) ∧
        Skeleton.output_results ref.pow s =
          (R_km ref.pow (sol.Rsol s), M_Msun ref.pow (sol.Msol s))) ∧
  NG.run_code ref.pow ref.np_interp ref.odeint ref.crust inputs.two_points
    = Raise ValueError ∧
  Skeleton.run_code ref.np_interp ref.odeint ref.crust inputs.two_points
    = Raise ValueError ∧
  NG.run_code ref.pow ref.np_interp ref.odeint ref.crust inputs.one_point
    = Raise NameError ∧
  Skeleton.run_code ref.np_interp ref.odeint ref.crust inputs.one_point
    = Raise IndexError.
Proof.
  destruct (exhausted_grid_is_soft_failure ref.pow ref.np_interp ref.odeint ref.crust
              inputs.dilute) as (HNG & _).
  destruct (exhausted_grid_is_soft_failure ref.pow ref.np_interp ref.odeint ref.crust
              inputs.outer_shell) as (_ & HSk & _).
  destruct (exhausted_grid_is_soft_failure ref.pow ref.np_interp ref.odeint ref.crust
              inputs.two_points) as (_ & _ & HNG2 & HSk2 & _).
  destruct (exhausted_grid_is_soft_failure ref.pow ref.np_interp ref.odeint ref.crust
              inputs.one_point) as (_ & _ & _ & _ & HNG1 & HSk1).
  split; [|split; [|split; [|split; [|split]]]].
  - destruct (NG.setup ref.pow ref.np_interp ref.crust inputs.dilute)
      as [[[[f muc] rlist] v0]|e] eqn:Hsetup; [|vm_compute in Hsetup; done].
    assert (rlist = inputs.grid inputs.dilute) as Hgrid
      by (unfold inputs.grid; by rewrite Hsetup).
    assert (v0 = inputs.vars0 inputs.dilute) as Hv0
      by (unfold inputs.vars0; by rewrite Hsetup).
    rewrite <- Hgrid. apply (HNG f muc rlist v0 eq_refl).
    + rewrite Hgrid. vm_compute. lia.
    + apply never_fires_by_scan. rewrite Hgrid, Hv0. vm_compute. reflexivity.
  - destruct (Skeleton.setup ref.crust inputs.outer_shell)
      as [[[f rlist] v0]|e] eqn:Hsetup; [|vm_compute in Hsetup; done].
    assert (rlist = inputs.skeleton_grid inputs.outer_shell) as Hgrid
      by (unfold inputs.skeleton_grid; by rewrite Hsetup).
    assert (v0 = inputs.skeleton_vars0 inputs.outer_shell) as Hv0
      by (unfold inputs.skeleton_vars0; by rewrite Hsetup).
    rewrite <- Hgrid. apply (HSk f rlist v0 eq_refl).
    + rewrite Hgrid. vm_compute. lia.
    + rewrite Hgrid. vm_compute. reflexivity.
    + apply never_fires_by_scan. rewrite Hgrid, Hv0. vm_compute. reflexivity.
  - destruct (NG.setup ref.pow ref.np_interp ref.crust inputs.two_points)
      as [[[[f muc] rlist] v0]|e] eqn:Hsetup; [|vm_compute in Hsetup; done].
    apply (HNG2 f muc rlist v0 eq_refl).
    vm_compute in Hsetup. injection Hsetup as <- <- <- <-. reflexivity.
  - destruct (Skeleton.setup ref.crust inputs.two_points)
      as [[[f rlist] v0]|e] eqn:Hsetup; [|vm_compute in Hsetup; done].
    apply (HSk2 f rlist v0 eq_refl).
    vm_compute in Hsetup. injection Hsetup as <- <- <-. reflexivity.
  - destruct (NG.setup ref.pow ref.np_interp ref.crust inputs.one_point)
      as [[[[f muc] rlist] v0]|e] eqn:Hsetup; [|vm_compute in Hsetup; done].
    apply (HNG1 f muc rlist v0 eq_refl).
    vm_compute in Hsetup. injection Hsetup as <- <- <- <-. reflexivity.
  - apply (HSk1 [0; 1; 2]%float [0; 1; 2]%float [0; 0.5; 1]%float);
      [reflexivity | reflexivity | cbn; lia | reflexivity].
Defined.

(** C4 as stated fails on grids of fewer than three points, whatever the
    solver.  With one point the loop has no iteration, so that no point
    triggers the test: the Newtonian cell raises when it reads [i], which
    was never assigned, and the skeleton raises before the loop, at
    [rlist[-2]].  With two points the loop runs its only iteration, and
    whether the test fires there or not the cell raises, because [interp1d]
    does not accept the single knot that the slices keep. *)
Lemma short_grid_raises :
  length (inputs.grid inputs.one_point) = 1 ∧
  (∀ odeint,
     NG.run_code ref.pow ref.np_interp odeint ref.crust inputs.one_point
       = Raise NameError ∧
     Skeleton.run_code ref.np_interp odeint ref.crust inputs.one_point
       = Raise IndexError) ∧
  length (inputs.grid inputs.two_points) = 2 ∧
  (∀ odeint,
     NG.run_code ref.pow ref.np_interp odeint ref.crust inputs.two_points
       = Raise ValueError ∧
     Skeleton.run_code ref.np_interp odeint ref.crust inputs.two_points
       = Raise ValueError).
Proof.
  split; [vm_compute; reflexivity|]. split; [|split; [vm_compute; reflexivity|]].
  - intros odeint. split.
    + destruct (NG.setup ref.pow ref.np_interp ref.crust inputs.one_point)
        as [[[[f muc] rlist] v0]|e] eqn:Hsetup; [|vm_compute in Hsetup; done].
      apply (NG_run_one_point _ _ _ _ _ f muc rlist v0 Hsetup).
      vm_compute in Hsetup. injection Hsetup as <- <- <- <-. reflexivity.
    + apply (Skeleton_run_one_point _ _ _ _ [0; 1; 2]%float [0; 1; 2]%float
               [0; 0.5; 1]%float); [reflexivity | reflexivity | cbn; lia | reflexivity].
  - intros odeint. split.
    + destruct (NG.setup ref.pow ref.np_interp ref.crust inputs.two_points)
        as [[[[f muc] rlist] v0]|e] eqn:Hsetup; [|vm_compute in Hsetup; done].
      apply (NG_run_two_points _ _ _ _ _ f muc rlist v0 Hsetup).
      vm_compute in Hsetup. injection Hsetup as <- <- <- <-. reflexivity.
    + destruct (Skeleton.setup ref.crust inputs.two_points)
        as [[[f rlist] v0]|e] eqn:Hsetup; [|vm_compute in Hsetup; done].
      apply (Skeleton_run_two_points _ _ _ _ f rlist v0 Hsetup).
      vm_compute in Hsetup. injection Hsetup as <- <- <-. reflexivity.
Qed.

(** C10: when the test never fires on a grid of [n] points, the loop, in
    either notebook, ends with [i = n-2]; the state computed for the last
    grid point is in [ys] and did not fail the test, yet the slices keep
    rows [0..n-2] only, and [Rsol] is left as it was set before the loop.
    In a Newtonian run that then completes on an ascending grid, [Rsol] is
    the last grid radius, beyond the last knot of the interpolants; so
    [Msol] is the fill value [msoldat[-1]], the mass at the second-to-last
    grid point, and [musol] and [psol] raise when called at [Rsol]. *)
Theorem exhausted_grid_drops_last_state pow np_interp odeint crust :
  (∀ struceqs tol rlist v,
     length (vars.ys v) = length rlist →
     1 < length rlist →
     (∀ j, j + 1 < length rlist →
        fires odeint struceqs tol rlist (vars.ys v) j = false) →
     let n := length rlist in
     let computed := computed odeint struceqs rlist (vars.ys v) in
     pressure_vanishes (computed (n - 1)).1 tol = false ∧
     ∃ v', integrate odeint struceqs tol rlist v = Ok v' ∧
           vars.i v' = Some (n - 2) ∧
           vars.ys v' !! (n - 1) = Some (computed (n - 1)) ∧
           vars.Rsol v' = vars.Rsol v ∧
           truncate rlist v' =
             Ok (take (n - 1) rlist,
                 (computed <$> seq 0 (n - 1)).*1,
                 (computed <$> seq 0 (n - 1)).*2)) ∧
  (∀ prm f muc rlist v0 s,
     NG.setup pow np_interp crust prm = Ok (f, muc, rlist, v0) →
     NG.run_code pow np_interp odeint crust prm = Ok s →
     ascending rlist = true →
     (∀ j, j + 1 < length rlist →
        fires odeint (NG.struceqs pow) (tol prm) rlist (vars.ys v0) j = false) →
     let n := length rlist in
     let computed := computed odeint (NG.struceqs pow) rlist (vars.ys v0) in
     3 ≤ n ∧
     sol.rlist s = take (n - 1) rlist ∧
     sol.musoldat s = (computed <$> seq 0 (n - 1)).*1 ∧
     sol.msoldat s = (computed <$> seq 0 (n - 1)).*2 ∧
     getitem_neg rlist 1 = Ok (sol.Rsol s) ∧
     (∃ x_last, getitem_neg (scipy.x (sol.msol s)) 1 = Ok x_last ∧
                getitem_neg rlist 2 = Ok x_last ∧
                (x_last <? sol.Rsol s)%float = true) ∧
     getitem_neg (sol.msoldat s) 1 = Ok (sol.Msol s) ∧
     sol.Msol s = (computed (n - 2)).2 ∧
     scipy.call np_interp (sol.musol s) (sol.Rsol s) = Raise ValueError ∧
     scipy.call np_interp (sol.psol s) (sol.Rsol s) = Raise ValueError).
Proof.
  split.
  { intros struceqs tol rlist v Hlen Hn1 Hnone. cbv zeta.
    pose proof (integrate_exhausted odeint struceqs tol rlist v Hlen Hn1 Hnone) as Hint.
    split.
    { replace (length rlist - 1) with (S (length rlist - 2)) by lia.
      apply Hnone. lia. }
    eexists. split; [exact Hint|]. cbn [vars.i vars.ys vars.Rsol].
    split; [done|]. split; [by apply stored_lookup|]. split; [done|].
    unfold truncate, read_i. cbn [vars.i vars.ys]. rewrite bind_Ok.
    replace (length rlist - 2 + 1) with (S (length rlist - 2)) by lia.
    replace (length rlist - 1) with (S (length rlist - 2)) by lia.
    by rewrite take_stored_S. }
  intros prm f muc rlist v0 s Hsetup Hrun Hasc Hnone. cbv zeta.
  destruct (NG_setup_inv _ _ _ _ _ _ _ _ Hsetup) as (Hbe & Hx & Hn0 & Hlen & HR & Hi0).
  unfold NG.run_code in Hrun. rewrite Hsetup, bind_Ok in Hrun.
  assert (1 < length rlist) as Hn1.
  { destruct (decide (1 < length rlist)) as [|Hn1]; [done|]. exfalso.
    rewrite (integrate_stored _ _ _ _ (vars.ys v0) Hlen) in Hrun by done.
    replace (length rlist - 1) with 0 in Hrun by lia.
    cbn [first_fire] in Hrun. rewrite bind_Ok in Hrun.
    unfold NG.finish, truncate, read_i in Hrun. cbn [vars.i] in Hrun.
    by rewrite Hi0 in Hrun. }
  pose proof (integrate_exhausted odeint (NG.struceqs pow) (tol prm) rlist v0
                Hlen Hn1 Hnone) as Hint.
  rewrite Hint, bind_Ok in Hrun. clear Hint.
  remember (length rlist) as n eqn:En in *.
  set (computed := computed odeint (NG.struceqs pow) rlist (vars.ys v0)) in *.
  assert (take (n - 1) (stored odeint (NG.struceqs pow) rlist (vars.ys v0) (n - 1))
          = computed <$> seq 0 (n - 1)) as Htake.
  { replace (n - 1) with (S (n - 2)) by lia. apply take_stored_S. }
  destruct (NG_finish_inv _ _ _ _ _ Hrun)
    as (i & fill & pmu & Hi & Hr & Hmus & Hms & HRs & Hmusol & Hfill & Hmsol
        & Hpmu & Hpsol & HMsol).
  cbn [vars.i vars.ys vars.Rsol] in Hi, Hr, Hmus, Hms, HRs.
  injection Hi as <-.
  replace (n - 2 + 1) with (n - 1) in Hr by lia.
  replace (n - 2 + 1) with (n - 1) in Hmus by lia.
  replace (n - 2 + 1) with (n - 1) in Hms by lia.
  assert (3 ≤ n) as Hn3.
  { destruct (interp1d_inv _ _ _ _ _ Hmusol) as (_ & _ & _ & H2).
    rewrite Hr, length_take in H2. lia. }
  rewrite Htake in Hmus, Hms.
  assert (length (sol.rlist s) = n - 1) as Hlr by (rewrite Hr, length_take; lia).
  assert (ascending (sol.rlist s) = true) as Hasc'
    by (rewrite Hr; by apply ascending_take).
  assert (length (sol.musoldat s) = n - 1) as Hlmus
    by (by rewrite Hmus, !length_fmap, length_seq).
  assert (length (sol.msoldat s) = n - 1) as Hlms
    by (by rewrite Hms, !length_fmap, length_seq).
  assert (length pmu = n - 1) as Hlpmu.
  { unfold scipy.interp1d_default, scipy.interp1d in Hpsol.
    case_decide as E; [lia|done]. }
  unfold scipy.interp1d_default in Hmusol, Hpsol.
  rewrite interp1d_ascending in Hmusol, Hmsol, Hpsol by (done || lia).
  injection Hmusol as Hmusol. injection Hmsol as Hmsol. injection Hpsol as Hpsol.
  assert (sol.rlist s !!! (n - 1 - 1) = rlist !!! (n - 2)) as Hlast.
  { rewrite Hr, lookup_total_take_lt by lia. f_equal. lia. }
  assert ((rlist !!! (n - 2)%nat <? rlist !!! (n - 1)%nat)%float = true) as Habove.
  { apply (ascending_lookup_lt rlist (n - 2) (n - 1)); [done|lia|..];
      apply list_lookup_lookup_total_lt; lia. }
  assert (fill = sol.msoldat s !!! (n - 2)) as Hfill'.
  { rewrite getitem_neg_total in Hfill by lia. injection Hfill as <-.
    rewrite Hlms. f_equal. lia. }
  split; [done|]. split; [done|]. split; [done|]. split; [done|].
  split; [rewrite HRs, HR, getitem_neg_total by lia; by rewrite <- En|].
  split.
  { exists (rlist !!! (n - 2)). rewrite <- Hmsol. cbn [scipy.x].
    split; [rewrite getitem_neg_total, Hlr by lia; by rewrite Hlast|].
    split; [rewrite getitem_neg_total by lia; by rewrite <- En|]. by rewrite HRs, HR. }
  assert (∀ ys be fv,
    scipy.call np_interp (scipy.Interp (sol.rlist s) ys be fv) (sol.Rsol s)
    = if be then Raise ValueError else Ok fv) as Hcall.
  { intros ys be fv. rewrite call_above_bounds; [done| |]; cbn [scipy.x].
    - lia.
    - by rewrite Hlr, Hlast, HRs, HR. }
  rewrite <- Hmsol, Hcall in HMsol. injection HMsol as <-.
  split; [rewrite getitem_neg_total, Hfill', Hlms by lia;
          by replace (n - 1 - 1) with (n - 2) by lia|].
  split.
  { rewrite Hfill'. apply list_lookup_total_correct.
    by rewrite Hms, !list_lookup_fmap, lookup_seq_lt by lia. }
  rewrite <- Hmusol, <- Hpsol, !Hcall. done.
Qed.

(** The exhausted runs of two worked inputs: the loop of the skeleton
    notebook on [outer_shell], a grid of five points, and the whole
    Newtonian run on [dilute], a grid of 21 points, which completes and
    returns [inputs.solution inputs.dilute]. *)
Lemma exhausted_grid_drops_last_state_runs :
  (let rlist := inputs.skeleton_grid inputs.outer_shell in
   let v0 := inputs.skeleton_vars0 inputs.outer_shell in
   let computed := computed ref.odeint Skeleton.struceqs rlist (vars.ys v0) in
   length rlist = 5 ∧
   pressure_vanishes (computed 4).1 (tol inputs.outer_shell) = false ∧
   ∃ v', integrate ref.odeint Skeleton.struceqs (tol inputs.outer_shell) rlist v0
           = Ok v' ∧
         vars.i v' = Some 3 ∧
         vars.ys v' !! 4 = Some (computed 4) ∧
         vars.Rsol v' = vars.Rsol v0 ∧
         truncate rlist v' =
           Ok (take 4 rlist, (computed <$> seq 0 4).*1, (computed <$> seq 0 4).*2)) ∧
  (let rlist := inputs.grid inputs.dilute in
   let v0 := inputs.vars0 inputs.dilute in
   let s := inputs.solution inputs.dilute in
   let computed := computed ref.odeint (NG.struceqs ref.pow) rlist (vars.ys v0) in
   NG.run_code ref.pow ref.np_interp ref.odeint ref.crust inputs.dilute = Ok s ∧
   ascending rlist = true ∧
   length rlist = 21 ∧
   sol.rlist s = take 20 rlist ∧
   sol.musoldat s = (computed <$> seq 0 20).*1 ∧
   sol.msoldat s = (computed <$> seq 0 20).*2 ∧
   getitem_neg rlist 1 = Ok (sol.Rsol s) ∧
   getitem_neg (sol.msoldat s) 1 = Ok (sol.Msol s) ∧
   sol.Msol s = (computed 19).2 ∧
   scipy.call ref.np_interp (sol.musol s) (sol.Rsol s) = Raise ValueError ∧
   scipy.call ref.np_interp (sol.psol s) (sol.Rsol s) = Raise ValueError).
Proof.
  destruct (exhausted_grid_drops_last_state ref.pow ref.np_interp ref.odeint ref.crust)
    as [Hloop Hrun].
  split.
  - intros rlist v0 computed.
    assert (length rlist = 5) as Hn by (vm_compute; reflexivity).
    split; [exact Hn|].
    specialize (Hloop Skeleton.struceqs (tol inputs.outer_shell) rlist v0).
    cbv zeta in Hloop. rewrite Hn in Hloop.
    change (5 - 1) with 4 in Hloop. change (5 - 2) with 3 in Hloop.
    apply Hloop.
    + vm_compute. reflexivity.
    + lia.
    + rewrite <- Hn. apply never_fires_by_scan. vm_compute. reflexivity.
  - intros rlist v0 s computed.
    assert (NG.run_code ref.pow ref.np_interp ref.odeint ref.crust inputs.dilute = Ok s)
      as Hs by (vm_compute; reflexivity).
    assert (ascending rlist = true) as Hasc by (vm_compute; reflexivity).
    assert (length rlist = 21) as Hn by (vm_compute; reflexivity).
    destruct (NG.setup ref.pow ref.np_interp ref.crust inputs.dilute)
      as [[[[f muc] rlist'] v0']|e] eqn:Hsetup; [|vm_compute in Hsetup; done].
    assert (rlist' = rlist) as ->
      by (subst rlist; unfold inputs.grid; by rewrite Hsetup).
    assert (v0' = v0) as -> by (subst v0; unfold inputs.vars0; by rewrite Hsetup).
    assert (∀ j, j + 1 < length rlist →
              fires ref.odeint (NG.struceqs ref.pow) (tol inputs.dilute) rlist
                (vars.ys v0) j = false) as Hnone.
    { apply never_fires_by_scan. vm_compute. reflexivity. }
    pose proof (Hrun inputs.dilute f muc rlist v0 s Hsetup Hs Hasc Hnone) as H.
    cbv zeta in H. rewrite Hn in H. change (21 - 1) with 20 in H.
    change (21 - 2) with 19 in H.
    destruct H as (_ & H3 & H4 & H5 & H6 & _ & H7 & H8 & H9 & H10).
    repeat split; done.
Defined.

(** ** What the truncated solution is known to satisfy *)

(** However the loop ends, the slices hold the states computed at grid
    points [0..i], and none of the iterations before [i] fired. *)
Lemma integrate_prefix odeint struceqs tol rlist v v' :
  length (vars.ys v) = length rlist →
  vars.i v = None →
  integrate odeint struceqs tol rlist v = Ok v' →
  is_Ok (truncate rlist v') →
  ∃ i, vars.i v' = Some i ∧ i + 1 < length rlist ∧
       take (i + 1) (vars.ys v') =
         computed odeint struceqs rlist (vars.ys v) <$> seq 0 (i + 1) ∧
       ∀ j, j < i → fires odeint struceqs tol rlist (vars.ys v) j = false.
Proof.
  intros Hlen Hi0 Hint [t Ht].
  destruct (decide (0 < length rlist)) as [Hn|Hn].
  - rewrite (integrate_stored _ _ _ _ (vars.ys v) Hlen) in Hint by done.
    injection Hint as <-.
    destruct (first_fire _ _ _ _ _ 0 (length rlist - 1)) as [f|] eqn:Hscan.
    + destruct (first_fire_inv _ _ _ _ _ _ _ _ Hscan) as (Hf & _ & Hbefore).
      exists f. cbn [vars.i vars.ys]. split; [done|]. split; [lia|].
      rewrite Nat.add_1_r. split; [apply take_stored_S|].
      intros j Hj. apply Hbefore. lia.
    + destruct (length rlist - 1) as [|m] eqn:Hm.
      { unfold truncate, read_i in Ht. cbn [vars.i] in Ht. by rewrite Hi0 in Ht. }
      exists (length rlist - 2). cbn [vars.i vars.ys]. split; [done|]. split; [lia|].
      replace (length rlist - 2 + 1) with (S m) by lia.
      split; [apply take_stored_S|].
      intros j Hj.
      apply (first_fire_None_inv _ _ _ _ _ _ 0 Hscan). lia.
  - unfold integrate in Hint. replace (length rlist - 1) with 0 in Hint by lia.
    injection Hint as <-.
    unfold truncate, read_i in Ht. by rewrite Hi0 in Ht.
Qed.

(** * Further facts about the notebooks *)

(** ** The loop keeps its array in shape *)

Lemma stored_lookup_gt odeint struceqs rlist ys0 k j :
  k < j → stored odeint struceqs rlist ys0 k !! j = ys0 !! j.
Proof.
  intros Hj. unfold stored.
  rewrite lookup_app_r by (rewrite length_fmap, length_seq; lia).
  rewrite length_fmap, length_seq, lookup_drop. f_equal. lia.
Qed.

Lemma stored_lookup_0 odeint struceqs rlist ys0 k :
  0 < length ys0 → stored odeint struceqs rlist ys0 k !! 0 = ys0 !! 0.
Proof.
  intros Hn. rewrite stored_lookup by lia. cbn [computed].
  symmetry. by apply list_lookup_lookup_total_lt.
Qed.

(** X1: The [for] statement never raises when [ys] has one row per grid point:
    every index it reads or writes is in range.  It keeps the number of
    rows of [ys] and its row 0, the boundary values, and it leaves alone
    every row beyond the one its last iteration has written. *)
Theorem integrate_never_raises odeint struceqs tol rlist v :
  length (vars.ys v) = length rlist →
  ∃ v',
    integrate odeint struceqs tol rlist v = Ok v' ∧
    length (vars.ys v') = length rlist ∧
    vars.ys v' !! 0 = vars.ys v !! 0 ∧
    ∀ k, match vars.i v' with Some i => i + 1 < k | None => True end →
         vars.ys v' !! k = vars.ys v !! k.
Proof.
  intros Hlen.
  destruct (decide (0 < length rlist)) as [Hn|Hn].
  - rewrite (integrate_stored _ _ _ _ (vars.ys v) Hlen) by done.
    eexists. split; [done|].
    destruct (first_fire _ _ _ _ _ 0 (length rlist - 1)) as [f|] eqn:Hscan;
      cbn [vars.ys vars.i].
    + destruct (first_fire_inv _ _ _ _ _ _ _ _ Hscan) as (Hf & _ & _).
      split; [rewrite length_stored; lia|].
      split; [apply stored_lookup_0; lia|].
      intros k Hk. apply stored_lookup_gt. lia.
    + split; [rewrite length_stored; lia|].
      split; [apply stored_lookup_0; lia|].
      intros k Hk. destruct (length rlist - 1) as [|m] eqn:Hm.
      * rewrite stored_0 by lia. done.
      * apply stored_lookup_gt. lia.
  - unfold integrate. replace (length rlist - 1) with 0 by lia.
    exists v. repeat split; done.
Qed.

Lemma integrate_never_raises_coarse :
  ∃ v',
    integrate ref.odeint (NG.struceqs ref.pow) 1e-6 (inputs.grid inputs.coarse)
      (inputs.vars0 inputs.coarse) = Ok v' ∧
    length (vars.ys v') = length (inputs.grid inputs.coarse) ∧
    vars.ys v' !! 0 = vars.ys (inputs.vars0 inputs.coarse) !! 0 ∧
    ∀ k, match vars.i v' with Some i => i + 1 < k | None => True end →
         vars.ys v' !! k = vars.ys (inputs.vars0 inputs.coarse) !! k.
Proof.
  apply (integrate_never_raises ref.odeint (NG.struceqs ref.pow) 1e-6
           (inputs.grid inputs.coarse) (inputs.vars0 inputs.coarse)).
  vm_compute. reflexivity.
Defined.

(** ** The slices never keep the whole grid *)

(** X2: Whenever the three slices can be taken after a loop that started with
    [i] unassigned, they have the same length, at least one and less than
    the number of grid points: the radii are a proper prefix of the grid,
    so the last grid radius is never part of the solution. *)
Theorem slices_are_a_proper_prefix odeint struceqs tol rlist v v' r' mus ms :
  length (vars.ys v) = length rlist →
  vars.i v = None →
  integrate odeint struceqs tol rlist v = Ok v' →
  truncate rlist v' = Ok (r', mus, ms) →
  length mus = length r' ∧ length ms = length r' ∧
  1 ≤ length r' < length rlist ∧
  r' = take (length r') rlist ∧
  vars.i v' = Some (length r' - 1) ∧
  mus !! 0 = Some (vars.ys v !!! 0).1.
Proof.
  intros Hlen Hi0 Hint Htr.
  destruct (integrate_prefix _ _ _ _ _ _ Hlen Hi0 Hint (ex_intro _ _ Htr))
    as (i & Hi & Hin & Htake & _).
  rewrite (truncate_Some _ _ _ Hi), Htake in Htr. injection Htr as <- <- <-.
  rewrite !length_fmap, length_seq, length_take.
  replace ((i + 1) `min` length rlist) with (i + 1) by lia.
  split; [done|]. split; [done|]. split; [lia|]. split; [done|].
  split; [rewrite Hi; f_equal; lia|].
  rewrite !list_lookup_fmap, lookup_seq_lt by lia. done.
Qed.

Lemma slices_are_a_proper_prefix_coarse :
  let r' := (inputs.slices inputs.coarse).1.1 in
  let mus := (inputs.slices inputs.coarse).1.2 in
  let ms := (inputs.slices inputs.coarse).2 in
  length mus = length r' ∧ length ms = length r' ∧
  1 ≤ length r' < length (inputs.grid inputs.coarse) ∧
  r' = take (length r') (inputs.grid inputs.coarse) ∧
  vars.i (inputs.after inputs.coarse) = Some (length r' - 1) ∧
  mus !! 0 = Some (vars.ys (inputs.vars0 inputs.coarse) !!! 0).1.
Proof.
  intros r' mus ms.
  apply (slices_are_a_proper_prefix ref.odeint (NG.struceqs ref.pow) 1e-6
           (inputs.grid inputs.coarse) (inputs.vars0 inputs.coarse)
           (inputs.after inputs.coarse) r' mus ms);
    vm_compute; reflexivity.
Defined.

(** ** A break at the first step *)

(** X3: When the surface test fires at the very first step, neither notebook
    produces a result: the loop breaks at [i = 0], the slices keep a single
    row, and [interp1d], which needs two knots, raises [ValueError].  This
    holds for every solver, table and central density. *)
Theorem first_step_break_raises pow np_interp odeint crust prm :
  (∀ f muc rlist v0,
     NG.setup pow np_interp crust prm = Ok (f, muc, rlist, v0) →
     1 < length rlist →
     fires odeint (NG.struceqs pow) (tol prm) rlist (vars.ys v0) 0 = true →
     NG.run_code pow np_interp odeint crust prm = Raise ValueError) ∧
  (∀ f rlist v0,
     Skeleton.setup crust prm = Ok (f, rlist, v0) →
     fires odeint Skeleton.struceqs (tol prm) rlist (vars.ys v0) 0 = true →
     Skeleton.run_code np_interp odeint crust prm = Raise ValueError).
Proof.
  split.
  - intros f muc rlist v0 Hsetup Hn Hfire.
    destruct (NG_setup_inv _ _ _ _ _ _ _ _ Hsetup) as (_ & _ & _ & Hlen & _).
    unfold NG.run_code. rewrite Hsetup, bind_Ok.
    rewrite (integrate_break _ _ _ _ v0 0), bind_Ok; [|done|lia| |done].
    + by apply NG_finish_one_row.
    + intros j Hj. lia.
  - intros f rlist v0 Hsetup Hfire.
    destruct (Skeleton_setup_inv _ _ _ _ _ Hsetup) as (_ & _ & Hn & Hlen & _).
    unfold Skeleton.run_code. rewrite Hsetup, bind_Ok.
    rewrite (integrate_break _ _ _ _ v0 0), bind_Ok; [|done|lia| |done].
    + by apply Skeleton_finish_one_row.
    + intros j Hj. lia.
Qed.

Lemma first_step_break_raises_runs :
  NG.run_code ref.pow ref.np_interp ref.odeint ref.crust inputs.high_tol
    = Raise ValueError ∧
  Skeleton.run_code ref.np_interp ref.odeint ref.crust inputs.coarse
    = Raise ValueError.
Proof.
  split.
  - destruct (NG.setup ref.pow ref.np_interp ref.crust inputs.high_tol)
      as [[[[f muc] rlist] v0]|e] eqn:Hsetup; [|vm_compute in Hsetup; discriminate].
    apply (proj1 (first_step_break_raises ref.pow ref.np_interp ref.odeint ref.crust
                    inputs.high_tol) f muc rlist v0 Hsetup);
      vm_compute in Hsetup; injection Hsetup as <- <- <- <-.
    + vm_compute. lia.
    + vm_compute. reflexivity.
  - destruct (Skeleton.setup ref.crust inputs.coarse)
      as [[[f rlist] v0]|e] eqn:Hsetup; [|vm_compute in Hsetup; discriminate].
    apply (proj2 (first_step_break_raises ref.pow ref.np_interp ref.odeint ref.crust
                    inputs.coarse) f rlist v0 Hsetup);
      vm_compute in Hsetup; injection Hsetup as <- <- <-.
    vm_compute. reflexivity.
Defined.

(** ** A break after the first step *)

(** An interpolant of an ascending grid, called at one of its knots, is
    evaluated inside its bounds. *)
Lemma call_at_knot np_interp xs ys be fv j :
  ascending xs = true → j < length xs →
  scipy.call np_interp (scipy.Interp xs ys be fv) (xs !!! j)
    = Ok (np_interp (xs !!! j) xs ys).
Proof.
  intros Hasc Hj. unfold scipy.call. cbn [scipy.x scipy.y scipy.bounds_error].
  rewrite (getitem_total xs 0), bind_Ok by lia.
  rewrite (getitem_neg_total xs 1), bind_Ok by lia.
  assert ((xs !!! j <? xs !!! 0%nat)%float = false) as ->.
  { destruct (decide (j = 0)) as [->|Hne]; [apply float_order.ltb_irrefl|].
    apply float_order.ltb_asym.
    apply (ascending_lookup_lt xs 0 j); [done|lia|..];
      apply list_lookup_lookup_total_lt; lia. }
  assert ((xs !!! (length xs - 1)%nat <? xs !!! j)%float = false) as ->.
  { destruct (decide (j = length xs - 1)) as [->|Hne]; [apply float_order.ltb_irrefl|].
    apply float_order.ltb_asym.
    apply (ascending_lookup_lt xs j (length xs - 1)); [done|lia|..];
      apply list_lookup_lookup_total_lt; lia. }
  cbn [orb]. by rewrite andb_false_r.
Qed.

(** X4: When the surface test first fires at a step [i >= 1] of an ascending
    grid, the Newtonian run completes, for every solver.  The reported
    radius is the grid radius [rlist[i]], which is the last knot of the
    three interpolants: the total mass is interpolated inside the bounds,
    not filled in, and [musol] and [psol] can be evaluated at the surface
    as well. *)
Theorem later_break_completes pow np_interp odeint crust prm f muc rlist v0 i :
  NG.setup pow np_interp crust prm = Ok (f, muc, rlist, v0) →
  ascending rlist = true →
  1 ≤ i → i + 1 < length rlist →
  (∀ j, j < i →
     fires odeint (NG.struceqs pow) (tol prm) rlist (vars.ys v0) j = false) →
  fires odeint (NG.struceqs pow) (tol prm) rlist (vars.ys v0) i = true →
  let computed := computed odeint (NG.struceqs pow) rlist (vars.ys v0) in
  ∃ s,
    NG.run_code pow np_interp odeint crust prm = Ok s ∧
    rlist !! i = Some (sol.Rsol s) ∧
    sol.rlist s = take (i + 1) rlist ∧
    sol.musoldat s = (computed <$> seq 0 (i + 1)).*1 ∧
    sol.msoldat s = (computed <$> seq 0 (i + 1)).*2 ∧
    getitem_neg (scipy.x (sol.msol s)) 1 = Ok (sol.Rsol s) ∧
    sol.Msol s = np_interp (sol.Rsol s) (sol.rlist s) (sol.msoldat s) ∧
    scipy.call np_interp (sol.musol s) (sol.Rsol s)
      = Ok (np_interp (sol.Rsol s) (sol.rlist s) (sol.musoldat s)) ∧
    is_Ok (scipy.call np_interp (sol.psol s) (sol.Rsol s)).
Proof.
  intros Hsetup Hasc Hi1 Hin Hbefore Hfire computed.
  destruct (NG_setup_inv _ _ _ _ _ _ _ _ Hsetup) as (Hbe & Hx & _ & Hlen & _).
  unfold NG.run_code. rewrite Hsetup, bind_Ok.
  rewrite (integrate_break _ _ _ _ v0 i), bind_Ok by done.
  unfold NG.finish. rewrite (truncate_Some _ _ i) by done.
  rewrite bind_Ok. cbn [vars.ys vars.Rsol].
  rewrite !Nat.add_1_r, take_stored_S.
  fold computed.
  set (r' := take (S i) rlist).
  set (rows := computed <$> seq 0 (S i)).
  assert (length r' = S i) as Hr by (unfold r'; rewrite length_take; lia).
  assert (length rows = S i) as Hrows
    by (unfold rows; by rewrite length_fmap, length_seq).
  assert (ascending r' = true) as Hasc' by by apply ascending_take.
  assert (rlist !!! i = r' !!! (length r' - 1)) as HR.
  { rewrite Hr. unfold r'. replace (S i - 1) with i by lia.
    by rewrite lookup_total_take_lt by lia. }
  unfold scipy.interp1d_default.
  rewrite (interp1d_ascending r' rows.*1), bind_Ok
    by (done || rewrite ?length_fmap; lia).
  rewrite getitem_neg_total, bind_Ok by (rewrite length_fmap; lia).
  rewrite (interp1d_ascending r' rows.*2), bind_Ok
    by (done || rewrite ?length_fmap; lia).
  destruct (call_array_fill np_interp (p f) rows.*1 Hbe Hx) as (pmu & -> & Hpmu).
  rewrite bind_Ok. rewrite length_fmap in Hpmu.
  rewrite (interp1d_ascending r' pmu), bind_Ok by (done || lia).
  rewrite HR, call_at_knot, bind_Ok by (done || lia).
  eexists. split; [done|]. cbn.
  split; [rewrite <- HR; apply list_lookup_lookup_total_lt; lia|].
  do 3 (split; [done|]).
  split; [by rewrite getitem_neg_total by lia|].
  split; [done|].
  rewrite !call_at_knot by (done || lia).
  split; [done|by eexists].
Qed.

Lemma later_break_completes_coarse :
  ∃ s,
    NG.run_code ref.pow ref.np_interp ref.odeint ref.crust inputs.coarse = Ok s ∧
    inputs.grid inputs.coarse !! 2 = Some (sol.Rsol s) ∧
    sol.rlist s = take 3 (inputs.grid inputs.coarse) ∧
    getitem_neg (scipy.x (sol.msol s)) 1 = Ok (sol.Rsol s) ∧
    sol.Msol s = ref.np_interp (sol.Rsol s) (sol.rlist s) (sol.msoldat s) ∧
    is_Ok (scipy.call ref.np_interp (sol.psol s) (sol.Rsol s)).
Proof.
  destruct (NG.setup ref.pow ref.np_interp ref.crust inputs.coarse)
    as [[[[f muc] rlist] v0]|e] eqn:Hsetup; [|vm_compute in Hsetup; discriminate].
  pose proof Hsetup as Hvalues. vm_compute in Hvalues.
  injection Hvalues as <- <- <- <-.
  destruct (later_break_completes ref.pow ref.np_interp ref.odeint ref.crust
              inputs.coarse _ _ _ _ 2 Hsetup)
    as (s & Hs & HR & Hr & _ & _ & Hlast & HM & _ & Hp).
  - vm_compute. reflexivity.
  - lia.
  - vm_compute. lia.
  - intros j Hj.
    destruct j as [|[|j]]; [vm_compute; reflexivity..|lia].
  - vm_compute. reflexivity.
  - exists s. repeat split; done.
Defined.

(** ** The radial grid *)

Lemma NG_setup_grid pow np_interp crust prm f muc rlist v0 :
  NG.setup pow np_interp crust prm = Ok (f, muc, rlist, v0) →
  np.linspace (stp prm) 10 (pts prm) = Ok rlist.
Proof.
  unfold NG.setup. destruct (geteos crust (eos prm)) as [[rhodat mudat] pdat].
  intros H. inv_bind H. by injection H as <- <- <- <-.
Qed.

(** With two or more samples the last one is [stop] itself. *)
Lemma linspace_ends start stop num l :
  np.linspace start stop num = Ok l → (2 ≤ num)%Z →
  length l = Z.to_nat num ∧ l !! (Z.to_nat num - 1) = Some stop.
Proof.
  intros Hgrid Hnum. unfold np.linspace in Hgrid.
  rewrite decide_False in Hgrid by lia. cbv zeta in Hgrid.
  rewrite !decide_True in Hgrid by lia. injection Hgrid as <-.
  destruct (_ =? 0)%float.
  - split; [by rewrite length_insert, !length_fmap, length_seq|].
    apply list_lookup_insert_eq. rewrite !length_fmap, length_seq. lia.
  - split; [by rewrite length_insert, !length_fmap, length_seq|].
    apply list_lookup_insert_eq. rewrite !length_fmap, length_seq. lia.
Qed.

(** Adding a number to a zero multiple of a finite number gives that number
    back, up to the sign of zero. *)
Lemma zero_mul_add (s a : float) :
  (abs s <? infinity)%float = true → (a =? a)%float = true →
  (0 * s + a =? a)%float = true.
Proof.
  rewrite FloatAxioms.ltb_spec, !FloatAxioms.eqb_spec, FloatAxioms.abs_spec,
    FloatAxioms.add_spec, FloatAxioms.mul_spec.
  change (Prim2SF 0) with (S754_zero false).
  change (Prim2SF infinity) with (S754_infinity false).
  unfold FloatAxioms.SF64add, FloatAxioms.SF64mul.
  destruct (Prim2SF s) as [ss| ss| |ss ms es], (Prim2SF a) as [sa| sa| |sa ma ea];
    cbn [SFabs SFmul SFadd xorb]; try done;
    try (destruct ss, sa; done).
  all: float_order.sf_cases.
Qed.

(** X5: For two or more points the grid of the Newtonian run has [pts] radii
    and ends at 10 exactly, whatever the starting step, so that the search
    for the surface starts from [Rsol = 10]; and when the spacing of the
    grid is a finite number other than zero, the grid starts at [stp]. *)
Theorem grid_runs_from_stp_to_10 pow np_interp crust prm f muc rlist v0 :
  NG.setup pow np_interp crust prm = Ok (f, muc, rlist, v0) →
  (2 ≤ pts prm)%Z →
  let n := Z.to_nat (pts prm) in
  let step := ((10 - stp prm) / np.of_nat (n - 1))%float in
  length rlist = n ∧
  rlist !! (n - 1) = Some 10%float ∧
  vars.Rsol v0 = 10%float ∧
  ((stp prm =? stp prm)%float = true →
   (step =? 0)%float = false →
   (abs step <? infinity)%float = true →
   ∃ r0, rlist !! 0 = Some r0 ∧ (r0 =? stp prm)%float = true).
Proof.
  intros Hsetup Hpts n step.
  pose proof (NG_setup_grid _ _ _ _ _ _ _ _ Hsetup) as Hgrid.
  destruct (NG_setup_inv _ _ _ _ _ _ _ _ Hsetup) as (_ & _ & _ & _ & HR & _).
  destruct (linspace_ends _ _ _ _ Hgrid Hpts) as [Hlen Hlast]. fold n in Hlen, Hlast.
  split; [done|]. split; [done|]. split.
  { rewrite HR, Hlen. by apply list_lookup_total_correct. }
  intros Hstp Hstep Hfin.
  unfold np.linspace in Hgrid. rewrite decide_False in Hgrid by lia.
  cbv zeta in Hgrid. fold n in Hgrid. fold step in Hgrid.
  assert (1 < n) as Hn by (unfold n; lia).
  rewrite !decide_True in Hgrid by done.
  injection Hgrid as Hgrid. rewrite Hstep in Hgrid.
  exists (0 * step + stp prm)%float. split; [|by apply zero_mul_add].
  rewrite <- Hgrid. rewrite list_lookup_insert_ne by lia.
  rewrite !list_lookup_fmap, lookup_seq_lt by lia. done.
Qed.

Lemma grid_runs_from_stp_to_10_coarse :
  length (inputs.grid inputs.coarse) = 6 ∧
  inputs.grid inputs.coarse !! 5 = Some 10%float ∧
  vars.Rsol (inputs.vars0 inputs.coarse) = 10%float ∧
  ∃ r0, inputs.grid inputs.coarse !! 0 = Some r0 ∧ (r0 =? 1e-4)%float = true.
Proof.
  destruct (NG.setup ref.pow ref.np_interp ref.crust inputs.coarse)
    as [[[[f muc] rlist] v0]|e] eqn:Hsetup; [|vm_compute in Hsetup; discriminate].
  pose proof Hsetup as Hvalues. vm_compute in Hvalues.
  injection Hvalues as <- <- <- <-.
  destruct (grid_runs_from_stp_to_10 ref.pow ref.np_interp ref.crust inputs.coarse
              _ _ _ _ Hsetup) as (Hlen & Hlast & HR & Hfirst); [vm_compute; discriminate|].
  destruct Hfirst as (r0 & Hr0 & Heq); [vm_compute; reflexivity..|].
  split; [done|]. split; [done|]. split; [done|].
  exists r0. split; done.
Defined.

(** ** Grids that are too short *)

Lemma NG_setup_Ok pow np_interp crust prm rhodat mudat pdat :
  crust (eos prm) = (rhodat, mudat, pdat) →
  length pdat = length rhodat → 2 ≤ length rhodat →
  overflows pow (stp prm) 3 = false → (1 ≤ pts prm)%Z →
  ∃ f muc rlist v0,
    NG.setup pow np_interp crust prm = Ok (f, muc, rlist, v0) ∧
    length rlist = Z.to_nat (pts prm) ∧
    length (vars.ys v0) = length rlist ∧
    vars.i v0 = None.
Proof.
  intros Hcrust Hp Hn Hover Hpts. unfold NG.setup, geteos. rewrite Hcrust.
  destruct (intpeos_Ok rhodat rhodat pdat) as (f & -> & _ & _ & Hbm & Hxm);
    [done..|].
  rewrite bind_Ok.
  destruct (call_fill np_interp (Mu f) (rhoc prm) Hbm Hxm) as [muc ->].
  rewrite bind_Ok, float_pow_Ok, bind_Ok by done.
  destruct (linspace_Ok (stp prm) 10 (pts prm)) as (rlist & -> & Hlen); [lia|].
  rewrite bind_Ok.
  rewrite setitem_lt, bind_Ok by (unfold np.zeros; rewrite length_replicate; lia).
  rewrite getitem_neg_total, bind_Ok by lia.
  do 4 eexists. split; [done|]. cbn [vars.ys vars.i].
  unfold np.zeros. by rewrite length_insert, length_replicate.
Qed.

Lemma Skeleton_setup_Ok crust prm rhodat mudat pdat :
  crust (eos prm) = (rhodat, mudat, pdat) →
  length pdat = length rhodat → 2 ≤ length rhodat → (2 ≤ pts prm)%Z →
  ∃ f rlist v0,
    Skeleton.setup crust prm = Ok (f, rlist, v0) ∧
    length rlist = Z.to_nat (pts prm) ∧
    length (vars.ys v0) = length rlist ∧
    vars.i v0 = None.
Proof.
  intros Hcrust Hp Hn Hpts. unfold Skeleton.setup, geteos. rewrite Hcrust.
  destruct (intpeos_Ok rhodat rhodat pdat) as (f & -> & _); [done..|].
  rewrite bind_Ok.
  destruct (linspace_Ok (stp prm) 10 (pts prm)) as (rlist & -> & Hlen); [lia|].
  rewrite bind_Ok.
  rewrite setitem_lt, bind_Ok by (unfold np.zeros; rewrite length_replicate; lia).
  rewrite getitem_neg_total, bind_Ok by lia.
  do 3 eexists. split; [done|]. cbn [vars.ys vars.i].
  unfold np.zeros. by rewrite length_insert, length_replicate.
Qed.

(** X6: A run needs a grid of three points.  With a table of two or more rows,
    and for every solver, tolerance and central density, the Newtonian
    notebook raises [OverflowError] when [stp**3] overflows, whatever the
    number of points.  Otherwise, and in the skeleton always: a negative
    number of points raises [ValueError] (from [linspace]); no point at all
    raises [IndexError] (the boundary values have no row to go to); a
    single point raises [NameError] in the Newtonian notebook (the loop
    never assigns [i]) and [IndexError] in the skeleton (there is no
    [rlist[-2]]); and two points raise [ValueError] in both (the only
    iteration leaves a single row for [interp1d]). *)
Theorem short_grids_raise pow np_interp odeint crust prm rhodat mudat pdat :
  crust (eos prm) = (rhodat, mudat, pdat) →
  length pdat = length rhodat →
  2 ≤ length rhodat →
  let ng := NG.run_code pow np_interp odeint crust prm in
  let skeleton := Skeleton.run_code np_interp odeint crust prm in
  (overflows pow (stp prm) 3 = true → ng = Raise OverflowError) ∧
  (overflows pow (stp prm) 3 = false →
     ((pts prm < 0)%Z → ng = Raise ValueError) ∧
     (pts prm = 0%Z → ng = Raise IndexError) ∧
     (pts prm = 1%Z → ng = Raise NameError) ∧
     (pts prm = 2%Z → ng = Raise ValueError)) ∧
  ((pts prm < 0)%Z → skeleton = Raise ValueError) ∧
  (pts prm = 0%Z → skeleton = Raise IndexError) ∧
  (pts prm = 1%Z → skeleton = Raise IndexError) ∧
  (pts prm = 2%Z → skeleton = Raise ValueError).
Proof.
  intros Hcrust Hp Hn ng skeleton. subst ng skeleton.
  destruct (intpeos_Ok rhodat rhodat pdat) as (f & Hf & _ & _ & Hbm & Hxm);
    [done..|].
  destruct (call_fill np_interp (Mu f) (rhoc prm) Hbm Hxm) as [muc Hmuc].
  split; [|split; [|split; [|split; [|split]]]].
  - intros Hover. unfold NG.run_code, NG.setup, geteos.
    by rewrite Hcrust, Hf, bind_Ok, Hmuc, bind_Ok, float_pow_overflow.
  - intros Hover. split; [|split; [|split]].
    + intros Hpts. unfold NG.run_code, NG.setup, geteos.
      rewrite Hcrust, Hf, bind_Ok, Hmuc, bind_Ok, float_pow_Ok, bind_Ok by done.
      unfold np.linspace. by rewrite decide_True by done.
    + intros Hpts. unfold NG.run_code, NG.setup, geteos.
      rewrite Hcrust, Hf, bind_Ok, Hmuc, bind_Ok, float_pow_Ok, bind_Ok by done.
      unfold np.linspace. by rewrite Hpts.
    + intros Hpts.
      destruct (NG_setup_Ok pow np_interp crust prm _ _ _ Hcrust Hp Hn Hover)
        as (f' & muc' & rlist & v0 & Hsetup & Hlen & _); [lia|].
      apply (NG_run_one_point _ _ _ _ _ _ _ _ _ Hsetup). by rewrite Hlen, Hpts.
    + intros Hpts.
      destruct (NG_setup_Ok pow np_interp crust prm _ _ _ Hcrust Hp Hn Hover)
        as (f' & muc' & rlist & v0 & Hsetup & Hlen & _); [lia|].
      apply (NG_run_two_points _ _ _ _ _ _ _ _ _ Hsetup). by rewrite Hlen, Hpts.
  - intros Hpts. unfold Skeleton.run_code, Skeleton.setup, geteos.
    rewrite Hcrust, Hf, !bind_Ok.
    unfold np.linspace. by rewrite decide_True by done.
  - intros Hpts. unfold Skeleton.run_code, Skeleton.setup, geteos.
    rewrite Hcrust, Hf, !bind_Ok.
    unfold np.linspace. by rewrite Hpts.
  - intros Hpts. by apply (Skeleton_run_one_point _ _ _ _ rhodat mudat pdat).
  - intros Hpts.
    destruct (Skeleton_setup_Ok crust prm _ _ _ Hcrust Hp Hn)
      as (f' & rlist & v0 & Hsetup & Hlen & _); [lia|].
    apply (Skeleton_run_two_points _ _ _ _ _ _ _ Hsetup). by rewrite Hlen, Hpts.
Qed.

Lemma short_grids_raise_runs :
  let ng := NG.run_code ref.pow ref.np_interp ref.odeint ref.crust in
  let skeleton := Skeleton.run_code ref.np_interp ref.odeint ref.crust in
  ng (Params inputs.toy 2 1e200 (-1) 1e-6) = Raise OverflowError ∧
  (ng (Params inputs.toy 2 1e-4 (-1) 1e-6) = Raise ValueError ∧
   skeleton (Params inputs.toy 2 1e-4 (-1) 1e-6) = Raise ValueError) ∧
  (ng (Params inputs.toy 2 1e-4 0 1e-6) = Raise IndexError ∧
   skeleton (Params inputs.toy 2 1e-4 0 1e-6) = Raise IndexError) ∧
  (ng inputs.one_point = Raise NameError ∧
   skeleton inputs.one_point = Raise IndexError) ∧
  (ng inputs.two_points = Raise ValueError ∧
   skeleton inputs.two_points = Raise ValueError).
Proof.
  intros ng skeleton.
  destruct (short_grids_raise ref.pow ref.np_interp ref.odeint ref.crust
              (Params inputs.toy 2 1e200 (-1) 1e-6)
              [0; 1; 2]%float [0; 1; 2]%float [0; 0.5; 1]%float)
    as (Hover & _); [reflexivity | reflexivity | cbn; lia |].
  destruct (short_grids_raise ref.pow ref.np_interp ref.odeint ref.crust
              (Params inputs.toy 2 1e-4 (-1) 1e-6)
              [0; 1; 2]%float [0; 1; 2]%float [0; 0.5; 1]%float)
    as (_ & Hneg & Hneg' & _); [reflexivity | reflexivity | cbn; lia |].
  destruct (short_grids_raise ref.pow ref.np_interp ref.odeint ref.crust
              (Params inputs.toy 2 1e-4 0 1e-6)
              [0; 1; 2]%float [0; 1; 2]%float [0; 0.5; 1]%float)
    as (_ & Hzero & _ & Hzero' & _); [reflexivity | reflexivity | cbn; lia |].
  destruct (short_grids_raise ref.pow ref.np_interp ref.odeint ref.crust
              inputs.one_point
              [0; 1; 2]%float [0; 1; 2]%float [0; 0.5; 1]%float)
    as (_ & Hone & _ & _ & Hone' & _); [reflexivity | reflexivity | cbn; lia |].
  destruct (short_grids_raise ref.pow ref.np_interp ref.odeint ref.crust
              inputs.two_points
              [0; 1; 2]%float [0; 1; 2]%float [0; 0.5; 1]%float)
    as (_ & Htwo & _ & _ & _ & Htwo'); [reflexivity | reflexivity | cbn; lia |].
  destruct Hneg as (Hneg & _); [vm_compute; reflexivity|].
  destruct Hzero as (_ & Hzero & _); [vm_compute; reflexivity|].
  destruct Hone as (_ & _ & Hone & _); [vm_compute; reflexivity|].
  destruct Htwo as (_ & _ & _ & Htwo); [vm_compute; reflexivity|].
  split; [apply Hover; vm_compute; reflexivity|].
  split; [split; [apply Hneg | apply Hneg']; reflexivity|].
  split; [split; [apply Hzero | apply Hzero']; reflexivity|].
  split; [split; [apply Hone | apply Hone']; reflexivity|].
  split; [apply Htwo | apply Htwo']; reflexivity.
Defined.

(** ** The equation of state outside its table *)

Lemma interp1d_ascending_inv xs ys be fv f :
  scipy.interp1d xs ys be fv = Ok f → ascending xs = true →
  f = scipy.Interp xs ys be fv ∧ length ys = length xs ∧ 2 ≤ length xs.
Proof.
  intros H Hasc.
  destruct (interp1d_inv _ _ _ _ _ H) as (_ & _ & _ & Hn).
  assert (length xs = length ys) as Hlen.
  { unfold scipy.interp1d in H. by case_decide. }
  rewrite interp1d_ascending in H by done. by injection H as <-.
Qed.

Lemma call_outside np_interp f x_new :
  scipy.bounds_error f = false → 0 < length (scipy.x f) →
  (x_new <? scipy.x f !!! 0%nat)%float
    || (scipy.x f !!! (length (scipy.x f) - 1)%nat <? x_new)%float = true →
  scipy.call np_interp f x_new = Ok (scipy.fill_value f).
Proof.
  intros Hbe Hn Hout. unfold scipy.call.
  rewrite (getitem_total (scipy.x f) 0), bind_Ok by done.
  rewrite (getitem_neg_total (scipy.x f) 1), bind_Ok by lia.
  by rewrite Hbe, Hout.
Qed.

(** X7: The interpolated equation of state of a Newtonian run never raises,
    whatever it is asked, and outside the density range of an ascending
    table its three functions return 0.  In particular a central density
    outside the table is not turned down: the run starts from a central
    energy density [muc = 0]. *)
Theorem eos_is_zero_outside_table pow np_interp crust prm rhodat mudat pdat
    f muc rlist v0 :
  crust (eos prm) = (rhodat, mudat, pdat) →
  ascending rhodat = true →
  NG.setup pow np_interp crust prm = Ok (f, muc, rlist, v0) →
  let outside (x : float) :=
    (x <? rhodat !!! 0%nat)%float
      || (rhodat !!! (length rhodat - 1)%nat <? x)%float in
  (∀ x, is_Ok (scipy.call np_interp (p f) x) ∧
        is_Ok (scipy.call np_interp (dpdmu f) x) ∧
        is_Ok (scipy.call np_interp (Mu f) x)) ∧
  (∀ x, outside x = true →
        scipy.call np_interp (p f) x = Ok 0%float ∧
        scipy.call np_interp (dpdmu f) x = Ok 0%float ∧
        scipy.call np_interp (Mu f) x = Ok 0%float) ∧
  (outside (rhoc prm) = true →
     muc = 0%float ∧
     vars.ys v0 !! 0
       = Some (0, 4 * np.pi * pow (stp prm) 3 * 0 / 3)%float).
Proof.
  intros Hcrust Hasc Hsetup outside.
  unfold NG.setup, geteos in Hsetup. rewrite Hcrust in Hsetup.
  inv_bind Hsetup. injection Hsetup as <- <- <- <-.
  apply float_pow_inv in Ha1 as [-> _].
  unfold intpeos in Ha. inv_bind Ha. injection Ha as <-.
  destruct (interp1d_ascending_inv _ _ _ _ _ Ha1 Hasc) as (-> & _ & Hn).
  destruct (interp1d_ascending_inv _ _ _ _ _ Ha8 Hasc) as (-> & _ & _).
  destruct (interp1d_ascending_inv _ _ _ _ _ Ha9 Hasc) as (-> & _ & _).
  cbn [p dpdmu Mu] in *.
  assert (∀ ys x, outside x = true →
            scipy.call np_interp (scipy.Interp rhodat ys false 0) x = Ok 0%float)
    as Hout.
  { intros ys x Hx. rewrite call_outside; [done|done|cbn; lia|done]. }
  split; [|split].
  - intros x. repeat split; apply call_fill; (done || cbn; lia).
  - intros x Hx. by rewrite !Hout.
  - intros Hrhoc. rewrite Hout in Ha0 by done. injection Ha0 as <-.
    split; [done|].
    unfold setitem in Ha3. case_decide; [|done]. injection Ha3 as <-.
    cbn [vars.ys]. by apply list_lookup_insert_eq.
Qed.

Lemma eos_is_zero_outside_table_negative_rhoc :
  ∃ f muc rlist v0,
    NG.setup ref.pow ref.np_interp ref.crust inputs.negative_rhoc
      = Ok (f, muc, rlist, v0) ∧
    scipy.call ref.np_interp (p f) 2.5 = Ok 0%float ∧
    muc = 0%float ∧
    vars.ys v0 !! 0 = Some (0, 4 * np.pi * ref.pow 1e-4 3 * 0 / 3)%float.
Proof.
  destruct (NG.setup ref.pow ref.np_interp ref.crust inputs.negative_rhoc)
    as [[[[f muc] rlist] v0]|e] eqn:Hsetup; [|vm_compute in Hsetup; discriminate].
  destruct (eos_is_zero_outside_table ref.pow ref.np_interp ref.crust
              inputs.negative_rhoc [0; 1; 2]%float [0; 1; 2]%float
              [0; 0.5; 1]%float f muc rlist v0)
    as (_ & Hout & Hmuc); [reflexivity | reflexivity | exact Hsetup |].
  exists f, muc, rlist, v0. split; [done|].
  split; [apply Hout; vm_compute; reflexivity|].
  apply Hmuc. vm_compute. reflexivity.
Defined.

(** ** Newtonian gravity: mu = rho *)

Lemma insert_knot_fst k1 k2 : ∀ l1 l2,
  k1.1 = k2.1 → l1.*1 = l2.*1 →
  (scipy.insert_knot k1 l1).*1 = (scipy.insert_knot k2 l2).*1.
Proof.
  induction l1 as [|h1 l1 IH]; intros [|h2 l2] Hk Hl; try done.
  - cbn. by rewrite Hk.
  - cbn in Hl. injection Hl as Hh Hl. cbn [scipy.insert_knot].
    rewrite Hh, Hk. destruct (scipy.sorts_before _ _); cbn.
    + by rewrite Hh, (IH l2).
    + by rewrite Hk, Hh, Hl.
Qed.

(** The sorted abscissae do not depend on the ordinates. *)
Lemma sort_knots_fst xs : ∀ ys1 ys2,
  length ys1 = length xs → length ys2 = length xs →
  (scipy.sort_knots (zip xs ys1)).*1 = (scipy.sort_knots (zip xs ys2)).*1.
Proof.
  induction xs as [|a xs IH]; intros [|y1 ys1] [|y2 ys2] H1 H2; try done.
  cbn [zip zip_with scipy.sort_knots foldr].
  apply insert_knot_fst; [done|].
  apply IH; cbn in *; lia.
Qed.

Lemma insert_knot_diagonal k l :
  k.1 = k.2 → l.*1 = l.*2 →
  (scipy.insert_knot k l).*1 = (scipy.insert_knot k l).*2.
Proof.
  intros Hk. induction l as [|h l IH]; intros Hl.
  - cbn. by rewrite Hk.
  - cbn in Hl. injection Hl as Hh Hl. cbn [scipy.insert_knot].
    destruct (scipy.sorts_before _ _); cbn.
    + by rewrite Hh, IH.
    + by rewrite Hk, Hh, Hl.
Qed.

Lemma sort_knots_diagonal xs :
  (scipy.sort_knots (zip xs xs)).*1 = (scipy.sort_knots (zip xs xs)).*2.
Proof.
  induction xs as [|a xs IH]; [done|].
  cbn [zip zip_with scipy.sort_knots foldr]. by apply insert_knot_diagonal.
Qed.

(** X8: In the Newtonian notebook the energy density is the mass density:
    whatever the table, sorted or not, the knots of [Mu] lie on the
    diagonal, [p] and [dpdmu] are tabulated against the same abscissae, the
    sorted densities, and the energy-density column that [crust] returns
    has no influence on the set-up. *)
Theorem newtonian_mu_is_rho pow np_interp crust prm rhodat mudat pdat
    f muc rlist v0 :
  crust (eos prm) = (rhodat, mudat, pdat) →
  NG.setup pow np_interp crust prm = Ok (f, muc, rlist, v0) →
  scipy.y (Mu f) = scipy.x (Mu f) ∧
  scipy.x (p f) = scipy.x (Mu f) ∧
  scipy.x (dpdmu f) = scipy.x (Mu f) ∧
  ∀ eos' mudat',
    crust eos' = (rhodat, mudat', pdat) →
    NG.setup pow np_interp crust (Params eos' (rhoc prm) (stp prm) (pts prm) (tol prm))
      = Ok (f, muc, rlist, v0).
Proof.
  intros Hcrust Hsetup. split; [|split; [|split]].
  4: { intros eos' mudat' Hcrust'. rewrite <- Hsetup.
       unfold NG.setup, geteos. cbn [eos rhoc stp pts tol].
       by rewrite Hcrust, Hcrust'. }
  all: unfold NG.setup, geteos in Hsetup; rewrite Hcrust in Hsetup;
    inv_bind Hsetup; injection Hsetup as <- <- <- <-;
    unfold intpeos in Ha; inv_bind Ha; injection Ha as <-; cbn [p dpdmu Mu];
    unfold scipy.interp1d in *; repeat case_decide; try done;
    injection Ha5 as <-; injection Ha9 as <-; injection Ha10 as <-;
    cbn [scipy.x scipy.y].
  - symmetry. apply sort_knots_diagonal.
  - by apply sort_knots_fst.
  - by apply sort_knots_fst.
Qed.

Lemma newtonian_mu_is_rho_unsorted :
  ∃ f muc rlist v0,
    NG.setup ref.pow ref.np_interp ref.crust inputs.unsorted = Ok (f, muc, rlist, v0) ∧
    scipy.y (Mu f) = scipy.x (Mu f) ∧
    scipy.x (p f) = scipy.x (Mu f) ∧
    NG.setup ref.pow ref.np_interp ref.crust
      (Params [[1; 7; 0.5]; [0; 5; 0]; [2; 9; 1]]%float 2 1e-4 6 1e-6)
      = Ok (f, muc, rlist, v0).
Proof.
  destruct (NG.setup ref.pow ref.np_interp ref.crust inputs.unsorted)
    as [[[[f muc] rlist] v0]|e] eqn:Hsetup; [|vm_compute in Hsetup; discriminate].
  destruct (newtonian_mu_is_rho ref.pow ref.np_interp ref.crust inputs.unsorted
              [1; 0; 2]%float [1; 0; 2]%float [0.5; 0; 1]%float f muc rlist v0)
    as (Hdiag & Hp & _ & Hmu); [reflexivity | exact Hsetup |].
  exists f, muc, rlist, v0. split; [done|]. split; [done|]. split; [done|].
  apply (Hmu [[1; 7; 0.5]; [0; 5; 0]; [2; 9; 1]]%float [7; 5; 9]%float).
  reflexivity.
Defined.

(** ** A tolerance that is not a number *)

Lemma ltb_nan_r (a t : float) : (t =? t)%float = false → (a <? t)%float = false.
Proof.
  rewrite FloatAxioms.ltb_spec, FloatAxioms.eqb_spec.
  generalize (Prim2SF a) (Prim2SF t). intros x y. float_order.sf_cases.
Qed.

(** X9: A tolerance that is not a number switches the search for the surface
    off: the test then fires on a NaN energy density only, and a loop whose
    states are all numbers visits every grid point and leaves [Rsol] as it
    was set before the loop. *)
Theorem nan_tolerance_disables_the_test odeint struceqs tol rlist v :
  (tol =? tol)%float = false →
  length (vars.ys v) = length rlist →
  1 < length rlist →
  (∀ pressure, pressure_vanishes pressure tol = negb (pressure =? pressure)%float) ∧
  ((∀ j, j + 1 < length rlist →
      let mu := (computed odeint struceqs rlist (vars.ys v) (j + 1)).1 in
      (mu =? mu)%float = true) →
   integrate odeint struceqs tol rlist v =
     Ok (vars.Make (stored odeint struceqs rlist (vars.ys v) (length rlist - 1))
           (vars.Rsol v) (Some (length rlist - 2)))).
Proof.
  intros Htol Hlen Hn.
  assert (∀ pressure,
            pressure_vanishes pressure tol = negb (pressure =? pressure)%float)
    as Htest.
  { intros pressure. unfold pressure_vanishes. by rewrite ltb_nan_r. }
  split; [done|]. intros Hnum.
  apply integrate_exhausted; [done..|].
  intros j Hj. unfold fires. rewrite Htest.
  specialize (Hnum j Hj). cbv zeta in Hnum. rewrite Nat.add_1_r in Hnum.
  by rewrite Hnum.
Qed.

Lemma nan_tolerance_disables_the_test_coarse :
  pressure_vanishes (-1) nan = false ∧
  integrate ref.odeint (NG.struceqs ref.pow) nan (inputs.grid inputs.coarse)
    (inputs.vars0 inputs.coarse) =
  Ok (vars.Make
        (stored ref.odeint (NG.struceqs ref.pow) (inputs.grid inputs.coarse)
           (vars.ys (inputs.vars0 inputs.coarse)) 5)
        10 (Some 4)).
Proof.
  destruct (nan_tolerance_disables_the_test ref.odeint (NG.struceqs ref.pow) nan
              (inputs.grid inputs.coarse) (inputs.vars0 inputs.coarse))
    as [Htest Hrun]; [reflexivity | vm_compute; reflexivity | vm_compute; lia |].
  split; [by rewrite Htest|].
  apply Hrun. intros j Hj.
  assert (length (inputs.grid inputs.coarse) = 6) as Hlen
    by (vm_compute; reflexivity).
  rewrite Hlen in Hj.
  destruct j as [|[|[|[|[|j]]]]]; [vm_compute; reflexivity..|lia].
Defined.

(** ** The signs of the structure equations *)

Lemma binary_round_aux_sign s m e l :
  let x := binary_round_aux prec emax s m e l in
  x = S754_nan ∨ x = S754_zero s ∨ x = S754_infinity s ∨
  ∃ m' e', x = S754_finite s m' e'.
Proof.
  unfold binary_round_aux.
  destruct (shr_fexp prec emax m e l) as [mrs' e'].
  destruct (shr_fexp prec emax _ e' loc_Exact) as [mrs'' e''].
  destruct (shr_m mrs'') as [|q|q]; [by right; left | |by left].
  destruct (e'' <=? emax - prec)%Z; [|by right; right; left].
  right; right; right. by do 2 eexists.
Qed.

Lemma SFopp_not_positive x :
  SFleb (S754_zero false) x = true → SFltb (S754_zero false) (SFopp x) = false.
Proof. destruct x as [[]|[]| |[]]; done. Qed.

Lemma SFltb_positive_nonneg x :
  SFltb (S754_zero false) x = true → SFleb (S754_zero false) x = true.
Proof. destruct x as [[]|[]| |[]]; done. Qed.

Lemma SFmul_not_positive x y :
  SFltb (S754_zero false) x = false → SFleb (S754_zero false) y = true →
  SFltb (S754_zero false) (SFmul prec emax x y) = false.
Proof.
  destruct x as [sx|[]| |[] mx ex], y as [sy|[]| |[] my ey]; try done.
  intros _ _. cbn [SFmul xorb].
  destruct (binary_round_aux_sign true (Z.pos (mx * my)) (ex + ey) loc_Exact)
    as [-> | [-> | [-> | (m' & e' & ->)]]]; done.
Qed.

Lemma SFmul_not_negative x y :
  SFltb x (S754_zero false) = false → SFleb (S754_zero false) y = true →
  SFltb (SFmul prec emax x y) (S754_zero false) = false.
Proof.
  destruct x as [sx|[]| |[] mx ex], y as [sy|[]| |[] my ey]; try done.
  intros _ _. cbn [SFmul xorb].
  destruct (binary_round_aux_sign false (Z.pos (mx * my)) (ex + ey) loc_Exact)
    as [-> | [-> | [-> | (m' & e' & ->)]]]; done.
Qed.

Lemma SFdiv_not_positive x y :
  SFltb (S754_zero false) x = false → SFltb (S754_zero false) y = true →
  SFltb (S754_zero false) (SFdiv prec emax x y) = false.
Proof.
  destruct x as [sx|[]| |[] mx ex], y as [sy|[]| |[] my ey]; try done.
  intros _ _. cbn [SFdiv xorb].
  destruct (SFdiv_core_binary prec emax (Z.pos mx) ex (Z.pos my) ey) as [[q e] l].
  destruct (binary_round_aux_sign true q e l)
    as [-> | [-> | [-> | (m' & e' & ->)]]]; done.
Qed.

(** X10: The right-hand sides of the Newtonian structure equations have the
    signs of the physics: where the energy density and the enclosed mass are
    not negative and [r**2] is positive, the energy density does not grow
    outwards ([hydro] is not positive) and the mass does not shrink
    ([mass] is not negative). *)
Theorem structure_equations_signs pow (mu m r : float) :
  (0 <=? mu)%float = true → (0 <=? m)%float = true →
  (0 <? pow r 2)%float = true →
  (0 <? NG.hydro pow (mu, m) r)%float = false ∧
  (NG.mass pow (mu, m) r <? 0)%float = false.
Proof.
  unfold NG.hydro, NG.mass.
  rewrite !FloatAxioms.leb_spec, !FloatAxioms.ltb_spec, FloatAxioms.div_spec,
    !FloatAxioms.mul_spec, FloatAxioms.opp_spec.
  change (Prim2SF 0) with (S754_zero false).
  intros Hmu Hm Hr. split.
  - apply SFdiv_not_positive; [|done].
    apply SFmul_not_positive; [|done]. by apply SFopp_not_positive.
  - apply SFmul_not_negative; [|done].
    apply SFmul_not_negative; [|by apply SFltb_positive_nonneg].
    vm_compute. reflexivity.
Qed.

Lemma structure_equations_signs_centre :
  (0 <? NG.hydro ref.pow (2, 1) 1e-4)%float = false ∧
  (NG.mass ref.pow (2, 1) 1e-4 <? 0)%float = false.
Proof.
  apply (structure_equations_signs ref.pow 2 1 1e-4); vm_compute; reflexivity.
Defined.

(** ** The curves of the output cell *)

Lemma call_array_at_knots np_interp xs ys be fv :
  ascending xs = true →
  scipy.call_array np_interp (scipy.Interp xs ys be fv) xs
    = Ok ((λ r, np_interp r xs ys) <$> xs).
Proof.
  intros Hasc. unfold scipy.call_array.
  assert (∀ l, (∀ r, r ∈ l → ∃ j, j < length xs ∧ xs !!! j = r) →
            result_mapM (scipy.call np_interp (scipy.Interp xs ys be fv)) l
              = Ok ((λ r, np_interp r xs ys) <$> l)) as Hall.
  { induction l as [|a l IH]; intros Hl; [done|].
    cbn [result_mapM fmap list_fmap].
    destruct (Hl a) as (j & Hj & <-); [by left|].
    rewrite call_at_knot, bind_Ok by done.
    rewrite IH, bind_Ok; [done|].
    intros r Hr. apply Hl. by right. }
  apply Hall. intros r [j Hj]%list_elem_of_lookup.
  exists j. split; [by eapply lookup_lt_Some|].
  by apply list_lookup_total_correct.
Qed.

(** X11: After a Newtonian run that has completed on an ascending grid, the
    output cell can draw its three curves: the interpolants are evaluated
    at their own knots only, so that none of them raises and the mass curve
    never takes the fill value. *)
Theorem plot_stays_inside_the_knots pow np_interp odeint crust prm f muc rlist v0 s :
  NG.setup pow np_interp crust prm = Ok (f, muc, rlist, v0) →
  NG.run_code pow np_interp odeint crust prm = Ok s →
  ascending rlist = true →
  ∃ pc pmu,
    scipy.call np_interp (p f) muc = Ok pc ∧
    scipy.call_array np_interp (p f) (sol.musoldat s) = Ok pmu ∧
    plot_curves np_interp f muc s =
      Ok ((λ r, (r / sol.Rsol s)%float) <$> sol.rlist s,
          (λ r, (np_interp r (sol.rlist s) (sol.musoldat s) / muc)%float)
            <$> sol.rlist s,
          (λ r, (np_interp r (sol.rlist s) pmu / pc)%float) <$> sol.rlist s,
          (λ r, (np_interp r (sol.rlist s) (sol.msoldat s) / sol.Msol s)%float)
            <$> sol.rlist s).
Proof.
  intros Hsetup Hrun Hasc.
  destruct (NG_setup_inv _ _ _ _ _ _ _ _ Hsetup) as (Hbe & Hx & _).
  unfold NG.run_code in Hrun. rewrite Hsetup, bind_Ok in Hrun.
  apply bind_Ok_inv in Hrun as (v & _ & Hfinish).
  destruct (NG_finish_inv _ _ _ _ _ Hfinish)
    as (i & fill & pmu & _ & Hr & _ & _ & _ & Hmusol & _ & Hmsol & Hpmu & Hpsol & _).
  assert (ascending (sol.rlist s) = true) as Hasc'
    by (rewrite Hr; by apply ascending_take).
  destruct (interp1d_ascending_inv _ _ _ _ _ Hmusol Hasc') as (Emusol & _).
  destruct (interp1d_ascending_inv _ _ _ _ _ Hmsol Hasc') as (Emsol & _).
  destruct (interp1d_ascending_inv _ _ _ _ _ Hpsol Hasc') as (Epsol & _).
  destruct (call_fill np_interp (p f) muc Hbe Hx) as [pc Hpc].
  exists pc, pmu. split; [done|]. split; [done|].
  unfold plot_curves. rewrite Emusol, Epsol, Emsol, Hpc.
  rewrite !call_array_at_knots, !bind_Ok by done.
  by rewrite <- !list_fmap_compose.
Qed.

Lemma plot_stays_inside_the_knots_coarse :
  ∃ f muc curves,
    plot_curves ref.np_interp f muc (inputs.solution inputs.coarse) = Ok curves ∧
    length curves.1.1.1 = 3 ∧ length curves.1.1.2 = 3 ∧
    length curves.1.2 = 3 ∧ length curves.2 = 3.
Proof.
  destruct (NG.setup ref.pow ref.np_interp ref.crust inputs.coarse)
    as [[[[f muc] rlist] v0]|e] eqn:Hsetup; [|vm_compute in Hsetup; discriminate].
  destruct (NG.run_code ref.pow ref.np_interp ref.odeint ref.crust inputs.coarse)
    as [s|e] eqn:Hrun; [|vm_compute in Hrun; discriminate].
  destruct (plot_stays_inside_the_knots ref.pow ref.np_interp ref.odeint ref.crust
              inputs.coarse f muc rlist v0 s Hsetup Hrun)
    as (pc & pmu & _ & _ & Hplot).
  { vm_compute in Hsetup. injection Hsetup as <- <- <- <-. vm_compute. reflexivity. }
  exists f, muc. eexists.
  unfold inputs.solution. rewrite Hrun. split; [exact Hplot|].
  cbn [fst snd]. rewrite !length_fmap.
  vm_compute in Hrun. injection Hrun as <-. vm_compute. done.
Defined.

(** ** What an exhausted run prints *)

(** X12: When the surface is never found on an ascending grid of three or more
    points, the Newtonian run completes and the output cell converts the
    outer radius of the grid, 10, whatever the table, the central density,
    the starting step and the solver; the mass it converts is the one
    computed at the second-to-last grid point. *)
Theorem exhausted_run_output pow np_interp odeint crust prm f muc rlist v0 :
  NG.setup pow np_interp crust prm = Ok (f, muc, rlist, v0) →
  ascending rlist = true →
  3 ≤ length rlist →
  (∀ j, j + 1 < length rlist →
     fires odeint (NG.struceqs pow) (tol prm) rlist (vars.ys v0) j = false) →
  ∃ s,
    NG.run_code pow np_interp odeint crust prm = Ok s ∧
    NG.output_results pow s =
      (R_km pow 10,
       M_Msun pow
         (computed odeint (NG.struceqs pow) rlist (vars.ys v0)
            (length rlist - 2)).2).
Proof.
  intros Hsetup Hasc Hn Hnone.
  destruct (NG_setup_inv _ _ _ _ _ _ _ _ Hsetup) as (Hbe & Hx & _ & Hlen & HR & _).
  pose proof (NG_setup_grid _ _ _ _ _ _ _ _ Hsetup) as Hgrid.
  assert (2 ≤ pts prm)%Z as Hpts.
  { destruct (decide (2 ≤ pts prm)%Z) as [|Hsmall]; [done|].
    destruct (decide (pts prm < 0)%Z) as [Hneg|Hpos].
    - unfold np.linspace in Hgrid. by rewrite decide_True in Hgrid.
    - destruct (linspace_Ok (stp prm) 10 (pts prm)) as (l & Hl & Hlen'); [lia|].
      rewrite Hgrid in Hl. injection Hl as <-. lia. }
  destruct (linspace_ends _ _ _ _ Hgrid Hpts) as [Hlen' Hlast].
  rewrite <- Hlen' in Hlast.
  apply list_lookup_total_correct in Hlast.
  unfold NG.run_code. rewrite Hsetup, bind_Ok.
  rewrite integrate_exhausted, bind_Ok by (done || lia).
  set (v := vars.Make _ _ _).
  destruct (NG_finish_Ok np_interp f rlist v (length rlist - 2)) as [s Hs];
    [done.. | lia | lia | unfold v; cbn [vars.ys]; rewrite length_stored; lia |].
  exists s. split; [done|].
  destruct (NG_finish_inv _ _ _ _ _ Hs)
    as (i & fill & pmu & Hi & Hr & _ & Hms & HRs & _ & Hfill & Hmsol & _ & _ & HM).
  cbn [vars.i v] in Hi. injection Hi as <-.
  cbn [vars.Rsol v] in HRs. rewrite HR, Hlast in HRs.
  cbn [vars.ys v] in Hms.
  replace (length rlist - 2 + 1) with (S (length rlist - 2)) in Hr, Hms by lia.
  replace (length rlist - 1) with (S (length rlist - 2)) in Hms by lia.
  rewrite take_stored_S in Hms.
  assert (ascending (sol.rlist s) = true) as Hasc'
    by (rewrite Hr; by apply ascending_take).
  destruct (interp1d_ascending_inv _ _ _ _ _ Hmsol Hasc') as (Emsol & _ & _).
  assert (length (sol.rlist s) = S (length rlist - 2)) as Hlr
    by (rewrite Hr, length_take; lia).
  assert (length (sol.msoldat s) = S (length rlist - 2)) as Hlm
    by (by rewrite Hms, !length_fmap, length_seq).
  rewrite getitem_neg_total in Hfill by lia. injection Hfill as <-.
  rewrite Emsol, call_above_bounds in HM.
  - cbn [scipy.bounds_error scipy.fill_value] in HM. injection HM as HM.
    unfold NG.output_results. rewrite HRs, <- HM. do 2 f_equal.
    rewrite Hlm, Hms. replace (S (length rlist - 2) - 1) with (length rlist - 2) by lia.
    rewrite <- list_fmap_compose.
    erewrite list_lookup_total_correct; [done|].
    rewrite list_lookup_fmap, lookup_seq_lt by lia. done.
  - cbn [scipy.x]. lia.
  - cbn [scipy.x]. rewrite Hlr, Hr, HRs, <- Hlast.
    replace (S (length rlist - 2) - 1) with (length rlist - 2) by lia.
    rewrite lookup_total_take_lt by lia.
    apply (ascending_lookup_lt rlist (length rlist - 2) (length rlist - 1));
      [done | lia | apply list_lookup_lookup_total_lt; lia ..].
Qed.

Lemma exhausted_run_output_dilute :
  ∃ s,
    NG.run_code ref.pow ref.np_interp ref.odeint ref.crust inputs.dilute = Ok s ∧
    NG.output_results ref.pow s =
      (R_km ref.pow 10,
       M_Msun ref.pow
         (computed ref.odeint (NG.struceqs ref.pow) (inputs.grid inputs.dilute)
            (vars.ys (inputs.vars0 inputs.dilute)) 19).2).
Proof.
  destruct (NG.setup ref.pow ref.np_interp ref.crust inputs.dilute)
    as [[[[f muc] rlist] v0]|e] eqn:Hsetup; [|vm_compute in Hsetup; discriminate].
  assert (rlist = inputs.grid inputs.dilute) as Hgrid
    by (unfold inputs.grid; by rewrite Hsetup).
  assert (v0 = inputs.vars0 inputs.dilute) as Hv0
    by (unfold inputs.vars0; by rewrite Hsetup).
  assert (length rlist = 21) as Hlen by (rewrite Hgrid; vm_compute; reflexivity).
  destruct (exhausted_run_output ref.pow ref.np_interp ref.odeint ref.crust
              inputs.dilute f muc rlist v0 Hsetup) as (s & Hs & Hout).
  - rewrite Hgrid. vm_compute. reflexivity.
  - lia.
  - apply never_fires_by_scan. rewrite Hgrid, Hv0. vm_compute. reflexivity.
  - exists s. split; [done|]. rewrite Hout, Hlen, Hgrid, Hv0. done.
Defined.

(** ** The skeleton notebook after a break *)

(** X13: When the surface test first fires at a step [i >= 1] of an ascending
    grid, the skeleton run completes as well, although its [msol] raises
    outside its knots: the radius it reports, [rlist[i]], is the last knot.
    The solution starts from the skeleton's fixed boundary values, 10 and
    1e-3, whatever the central density. *)
Theorem skeleton_break_completes np_interp odeint crust prm f rlist v0 i :
  Skeleton.setup crust prm = Ok (f, rlist, v0) →
  ascending rlist = true →
  1 ≤ i → i + 1 < length rlist →
  (∀ j, j < i →
     fires odeint Skeleton.struceqs (tol prm) rlist (vars.ys v0) j = false) →
  fires odeint Skeleton.struceqs (tol prm) rlist (vars.ys v0) i = true →
  ∃ s,
    Skeleton.run_code np_interp odeint crust prm = Ok s ∧
    rlist !! i = Some (sol.Rsol s) ∧
    sol.rlist s = take (i + 1) rlist ∧
    sol.musoldat s !! 0 = Some 10%float ∧
    sol.msoldat s !! 0 = Some 1e-3%float ∧
    scipy.bounds_error (sol.msol s) = true ∧
    sol.Msol s = np_interp (sol.Rsol s) (sol.rlist s) (sol.msoldat s).
Proof.
  intros Hsetup Hasc Hi1 Hin Hbefore Hfire.
  destruct (Skeleton_setup_inv _ _ _ _ _ Hsetup) as (Hbe & Hx & _ & Hlen & _).
  assert (vars.ys v0 !! 0 = Some (10%float, 1e-3%float)) as Hy0.
  { unfold Skeleton.setup in Hsetup.
    destruct (geteos crust (eos prm)) as [[rhodat mudat] pdat].
    inv_bind Hsetup. injection Hsetup as <- <- <-.
    unfold setitem in Ha1. case_decide; [|done]. injection Ha1 as <-.
    cbn [vars.ys]. by apply list_lookup_insert_eq. }
  unfold Skeleton.run_code. rewrite Hsetup, bind_Ok.
  rewrite (integrate_break _ _ _ _ v0 i), bind_Ok by done.
  unfold Skeleton.finish. rewrite (truncate_Some _ _ i) by done.
  rewrite bind_Ok. cbn [vars.ys vars.Rsol].
  rewrite !Nat.add_1_r, take_stored_S.
  set (computed := computed odeint Skeleton.struceqs rlist (vars.ys v0)).
  set (r' := take (S i) rlist).
  set (rows := computed <$> seq 0 (S i)).
  assert (length r' = S i) as Hr by (unfold r'; rewrite length_take; lia).
  assert (length rows = S i) as Hrows
    by (unfold rows; by rewrite length_fmap, length_seq).
  assert (ascending r' = true) as Hasc' by by apply ascending_take.
  assert (rlist !!! i = r' !!! (length r' - 1)) as HR.
  { rewrite Hr. unfold r'. replace (S i - 1) with i by lia.
    by rewrite lookup_total_take_lt by lia. }
  unfold scipy.interp1d_default.
  rewrite (interp1d_ascending r' rows.*1), bind_Ok
    by (done || rewrite ?length_fmap; lia).
  rewrite (interp1d_ascending r' rows.*2), bind_Ok
    by (done || rewrite ?length_fmap; lia).
  destruct (call_array_fill np_interp (p f) rows.*1 Hbe Hx) as (pmu & -> & Hpmu).
  rewrite bind_Ok. rewrite length_fmap in Hpmu.
  rewrite (interp1d_ascending r' pmu), bind_Ok by (done || lia).
  rewrite HR, call_at_knot, bind_Ok by (done || lia).
  eexists. split; [done|]. cbn.
  split; [rewrite <- HR; apply list_lookup_lookup_total_lt; lia|].
  split; [done|].
  rewrite (list_lookup_total_correct _ _ _ Hy0). done.
Qed.

Lemma skeleton_break_completes_runs :
  ∃ s,
    Skeleton.run_code ref.np_interp ref.odeint ref.crust
      (Params inputs.toy 2 9.9 5 9.95) = Ok s ∧
    length (sol.rlist s) = 2 ∧
    sol.musoldat s !! 0 = Some 10%float ∧
    sol.Msol s = ref.np_interp (sol.Rsol s) (sol.rlist s) (sol.msoldat s).
Proof.
  destruct (Skeleton.setup ref.crust (Params inputs.toy 2 9.9 5 9.95))
    as [[[f rlist] v0]|e] eqn:Hsetup; [|vm_compute in Hsetup; discriminate].
  pose proof Hsetup as Hvalues. vm_compute in Hvalues.
  injection Hvalues as <- <- <-.
  destruct (skeleton_break_completes ref.np_interp ref.odeint ref.crust
              (Params inputs.toy 2 9.9 5 9.95) _ _ _ 1 Hsetup)
    as (s & Hs & _ & Hr & Hmu & _ & _ & HM).
  - vm_compute. reflexivity.
  - lia.
  - vm_compute. lia.
  - intros j Hj. destruct j as [|j]; [vm_compute; reflexivity|lia].
  - vm_compute. reflexivity.
  - exists s. split; [done|].
    split; [rewrite Hr; vm_compute; reflexivity|]. split; done.
Defined.

(** ** Which tables [intpeos] accepts *)

(** X14: [intpeos] accepts exactly the tables whose three columns have the same
    length, at least two; every other table raises [ValueError], and no
    other exception: the columns are not checked for order, sign or
    repeated densities. *)
Theorem intpeos_accepts rhodat mudat pdat :
  (is_Ok (intpeos rhodat mudat pdat) ↔
     length rhodat = length mudat ∧ length pdat = length mudat ∧ 2 ≤ length mudat) ∧
  (∀ e, intpeos rhodat mudat pdat = Raise e → e = ValueError).
Proof.
  split; [split|].
  - intros [f Hf]. unfold intpeos in Hf. inv_bind Hf.
    unfold scipy.interp1d, scipy.minval in Ha, Ha4.
    repeat case_decide; try done. lia.
  - intros (Hr & Hp & Hn).
    destruct (intpeos_Ok rhodat mudat pdat) as (f & Hf & _); [lia..|].
    by exists f.
  - intros e. unfold intpeos.
    destruct (scipy.interp1d mudat pdat false 0) as [pmu|e1] eqn:H1.
    2: { unfold scipy.interp1d in H1. repeat case_decide; try done;
         injection H1 as <-; by intros [= <-]. }
    destruct (interp1d_inv _ _ _ _ _ H1) as (_ & _ & _ & Hn).
    assert (length mudat = length pdat) as Hlen.
    { unfold scipy.interp1d in H1. by case_decide. }
    rewrite bind_Ok.
    destruct (gradient_Ok pdat) as (gp & -> & Hgp); [lia|].
    destruct (gradient_Ok mudat) as (gmu & -> & Hgmu); [lia|].
    rewrite !bind_Ok. unfold np.divide. rewrite decide_True by lia. rewrite bind_Ok.
    destruct (interp1d_Ok mudat (zip_with (λ u v, (u / v)%float) gp gmu) false 0%float)
      as (fd & -> & _); [rewrite length_zip_with; lia | lia |].
    rewrite bind_Ok.
    destruct (scipy.interp1d rhodat mudat false 0) as [fm|e3] eqn:H3; [done|].
    unfold scipy.interp1d in H3. repeat case_decide; try done;
      injection H3 as <-; by intros [= <-].
Qed.

(** ** The tolerance and the place of the surface *)

Lemma fires_mono odeint struceqs tol1 tol2 rlist ys0 j :
  (tol1 <=? tol2)%float = true →
  fires odeint struceqs tol1 rlist ys0 j = true →
  fires odeint struceqs tol2 rlist ys0 j = true.
Proof.
  unfold fires, pressure_vanishes. intros Hle.
  destruct (negb _); [by rewrite !orb_true_r|]. rewrite !orb_false_r.
  revert Hle. rewrite FloatAxioms.leb_spec, !FloatAxioms.ltb_spec.
  generalize (Prim2SF tol1) (Prim2SF tol2)
    (Prim2SF (computed odeint struceqs rlist ys0 (S j)).1).
  intros x y z. float_order.sf_cases.
Qed.

(** X15: The states that the loop computes do not depend on the tolerance, so
    that a larger tolerance never moves the surface outwards: if the loop
    breaks at step [i1] under one tolerance, under any larger one it breaks
    at some step [i2 <= i1], reports the grid radius [rlist[i2]], and has
    stored the same states up to there. *)
Theorem larger_tolerance_breaks_no_later odeint struceqs tol1 tol2 rlist v i1 :
  length (vars.ys v) = length rlist →
  (tol1 <=? tol2)%float = true →
  i1 + 1 < length rlist →
  (∀ j, j < i1 → fires odeint struceqs tol1 rlist (vars.ys v) j = false) →
  fires odeint struceqs tol1 rlist (vars.ys v) i1 = true →
  ∃ v1 v2 i2,
    integrate odeint struceqs tol1 rlist v = Ok v1 ∧
    integrate odeint struceqs tol2 rlist v = Ok v2 ∧
    vars.i v1 = Some i1 ∧ vars.i v2 = Some i2 ∧ i2 ≤ i1 ∧
    rlist !! i2 = Some (vars.Rsol v2) ∧
    take (i2 + 2) (vars.ys v2) = take (i2 + 2) (vars.ys v1).
Proof.
  intros Hlen Hle Hi1 Hbefore Hfire.
  pose proof (fires_mono _ _ _ _ _ _ _ Hle Hfire) as Hfire2.
  destruct (first_fire odeint struceqs tol2 rlist (vars.ys v) 0 (length rlist - 1))
    as [i2|] eqn:Hscan.
  2: { rewrite (first_fire_None_inv _ _ _ _ _ _ _ Hscan i1) in Hfire2 by lia. done. }
  destruct (first_fire_inv _ _ _ _ _ _ _ _ Hscan) as (Hr & Hf2 & Hb2).
  assert (i2 ≤ i1) as Hi2.
  { destruct (decide (i2 ≤ i1)) as [|Hgt]; [done|].
    rewrite Hb2 in Hfire2 by lia. done. }
  eexists _, _, i2.
  split; [by apply (integrate_break _ _ _ _ v i1)|].
  split; [apply (integrate_break _ _ _ _ v i2); [done|lia| |done];
          intros j Hj; apply Hb2; lia|].
  cbn [vars.i vars.Rsol vars.ys].
  split; [done|]. split; [done|]. split; [done|].
  split; [apply list_lookup_lookup_total_lt; lia|].
  apply list_eq. intros k. rewrite !lookup_take.
  destruct (decide (k < i2 + 2)) as [Hk|Hk]; [|done].
  by rewrite !stored_lookup by lia.
Qed.

Lemma larger_tolerance_breaks_no_later_coarse :
  ∃ v1 v2 i2,
    integrate ref.odeint (NG.struceqs ref.pow) 1e-6 (inputs.grid inputs.coarse)
      (inputs.vars0 inputs.coarse) = Ok v1 ∧
    integrate ref.odeint (NG.struceqs ref.pow) 3 (inputs.grid inputs.coarse)
      (inputs.vars0 inputs.coarse) = Ok v2 ∧
    vars.i v1 = Some 2 ∧ vars.i v2 = Some i2 ∧ i2 ≤ 2 ∧
    inputs.grid inputs.coarse !! i2 = Some (vars.Rsol v2) ∧
    take (i2 + 2) (vars.ys v2) = take (i2 + 2) (vars.ys v1).
Proof.
  apply (larger_tolerance_breaks_no_later ref.odeint (NG.struceqs ref.pow) 1e-6 3
           (inputs.grid inputs.coarse) (inputs.vars0 inputs.coarse) 2).
  - vm_compute. reflexivity.
  - vm_compute. reflexivity.
  - vm_compute. lia.
  - intros j Hj. destruct j as [|[|j]]; [vm_compute; reflexivity..|lia].
  - vm_compute. reflexivity.
Defined.

(** ** The invariants of the truncated solution *)

Lemma NG_struceqs_signs pow (y : state) (r : float) :
  (0 <=? y.1)%float = true → (0 <=? y.2)%float = true →
  (0 <? pow r 2)%float = true →
  (0 <? (NG.struceqs pow y r).1)%float = false ∧
  ((NG.struceqs pow y r).2 <? 0)%float = false.
Proof.
  destruct y as [mu m]. unfold NG.struceqs, NG.hydro, NG.mass. cbn [fst snd].
  rewrite !FloatAxioms.leb_spec, !FloatAxioms.ltb_spec, FloatAxioms.div_spec,
    !FloatAxioms.mul_spec, FloatAxioms.opp_spec.
  change (Prim2SF 0) with (S754_zero false).
  intros Hmu Hm Hr. split.
  - apply SFdiv_not_positive; [|done].
    apply SFmul_not_positive; [|done]. by apply SFopp_not_positive.
  - apply SFmul_not_negative; [|done].
    apply SFmul_not_negative; [|by apply SFltb_positive_nonneg].
    vm_compute. reflexivity.
Qed.


